(** * Panel-regression pipeline of thesis-models: shallow embedding

    The scripts under [code/] read one firm-year table, build lagged and
    derived regressors per firm, select sub-panels and hand NaN-free design
    matrices to the fixed/random-effects estimators of [linearmodels].

    Cells of a pandas float column are modelled by [fval]: a finite number
    (an exact rational), the two infinities, or NaN.  The estimators, the
    matrix inverse and the chi-square distribution are library code; they
    enter as fields of the classes [Estimator] and [Numerics]. *)

From Stdlib Require Import List ZArith QArith String Ascii Bool Arith Lia.
From Stdlib Require Import DecimalString.
Import ListNotations.

Set Implicit Arguments.

Local Open Scope string_scope.
Local Open Scope nat_scope.
Local Open Scope list_scope.

(* ================================================================== *)
(** ** Cells and frames *)

(** A float64 cell as pandas sees it. *)
Inductive fval : Type :=
| Num (q : Q)
| PInf
| NInf
| NaN.

(** [Series.isna]: only NaN counts as missing, an infinity does not. *)
Definition isna (v : fval) : bool :=
  match v with NaN => true | _ => false end.

Definition notna (v : fval) : bool := negb (isna v).

(** [np.isinf] *)
Definition isinf (v : fval) : bool :=
  match v with PInf | NInf => true | _ => false end.

Definition isfinite (v : fval) : bool :=
  match v with Num _ => true | _ => false end.

(** Sign of a rational, as -1, 0 or 1. *)
Definition Qsign (q : Q) : Z := Z.sgn (Qnum q).

(** Float division as numpy performs it on a float64 column: a non-zero
    number over zero is a signed infinity, zero over zero is NaN, NaN
    propagates, and the quotient of two infinities is NaN. *)
Definition fdiv (a b : fval) : fval :=
  match a, b with
  | NaN, _ | _, NaN => NaN
  | Num x, Num y =>
      if Qeq_bool y 0 then
        match Qsign x with
        | Z0 => NaN
        | Zpos _ => PInf
        | Zneg _ => NInf
        end
      else Num (x / y)
  | Num _, (PInf | NInf) => Num 0
  | PInf, Num y => if (Qsign y <? 0)%Z then NInf else PInf
  | NInf, Num y => if (Qsign y <? 0)%Z then PInf else NInf
  | (PInf | NInf), (PInf | NInf) => NaN
  end.

(** One record of the firm-year table, indexed by (entity, year).  [cell]
    gives the value of every named numeric column. *)
Record row : Type := mkRow {
  entity : string;
  year   : Z;
  sector : option string;
  cell   : string -> fval
}.

Definition frame := list row.

(** [df[c] = v] on one record. *)
Definition set_cell (c : string) (v : fval) (r : row) : row :=
  mkRow (entity r) (year r) (sector r)
        (fun c' => if String.eqb c' c then v else cell r c').

(** The column [c] of a frame together with its level-0 index. *)
Definition keyed_column (c : string) (f : frame) : list (string * fval) :=
  map (fun r => (entity r, cell r c)) f.

(** [df[c] = values], row by row; a frame and a column built from it
    have the same length. *)
Fixpoint assign_column (c : string) (vals : list fval) (f : frame) : frame :=
  match f, vals with
  | r :: f', v :: vals' => set_cell c v r :: assign_column c vals' f'
  | _, _ => f
  end.

(* ================================================================== *)
(** ** Lag Builder: [groupby(level=0)[c].shift(L)] *)

Section GroupShift.
Variable V : Type.
Variable na : V.

(** Values already seen for each entity, most recent first. *)
Definition history := string -> list V.

Definition no_history : history := fun _ => [].

Definition push (h : history) (e : string) (v : V) : history :=
  fun e' => if String.eqb e' e then v :: h e' else h e'.

(** The shifted value of a row of entity [e] holding [v]: the value
    [L] positions back inside the group, missing when the group has
    fewer earlier rows; a shift by zero leaves the value. *)
Definition lagged (h : history) (L : nat) (e : string) (v : V) : V :=
  match L with
  | O => v
  | S k => nth k (h e) na
  end.

Fixpoint group_shift_from (h : history) (L : nat)
         (col : list (string * V)) : list V :=
  match col with
  | [] => []
  | (e, v) :: rest => lagged h L e v :: group_shift_from (push h e v) L rest
  end.

Definition group_shift (L : nat) (col : list (string * V)) : list V :=
  group_shift_from no_history L col.

(** The values of one entity's group, in frame order. *)
Fixpoint group_values (e : string) (col : list (string * V)) : list V :=
  match col with
  | [] => []
  | (e', v) :: rest =>
      if String.eqb e' e then v :: group_values e rest
      else group_values e rest
  end.

(** The keys of a column paired with another list of values. *)
Definition rekey (col : list (string * V)) (vals : list V) : list (string * V) :=
  combine (map fst col) vals.
End GroupShift.

(** The lagged column of a frame. *)
Definition shift_column (c : string) (L : nat) (f : frame) : list fval :=
  group_shift NaN L (keyed_column c f).

(* ================================================================== *)
(** ** Sector matching: [str.contains("hotel", case=False, na=False)] *)

Definition lower_ascii (a : ascii) : ascii :=
  let n := nat_of_ascii a in
  if (65 <=? n) && (n <=? 90) then ascii_of_nat (n + 32) else a.

Fixpoint lower (s : string) : string :=
  match s with
  | EmptyString => EmptyString
  | String a s' => String (lower_ascii a) (lower s')
  end.

Fixpoint contains (needle hay : string) : bool :=
  String.prefix needle hay
  || match hay with
     | EmptyString => false
     | String _ hay' => contains needle hay'
     end.

(** A missing sector label never matches ([na=False]). *)
Definition sector_contains (token : string) (r : row) : bool :=
  match sector r with
  | Some s => contains (lower token) (lower s)
  | None => false
  end.

(* ================================================================== *)
(** ** Raised exceptions *)

(** A Python exception, identified by the name of its class. *)
Record exn : Type := Exn { exn_name : string }.

Inductive result (A : Type) : Type :=
| Ok (a : A)
| Raise (e : exn).

Arguments Ok {A} a.
Arguments Raise {A} e.

Definition bind {A B : Type} (m : result A) (k : A -> result B) : result B :=
  match m with
  | Ok a => k a
  | Raise e => Raise e
  end.

Notation "x <- m ;; k" := (bind m (fun x => k))
  (at level 61, m at next level, right associativity).

(** A loop whose body may raise: the first exception ends the loop. *)
Fixpoint for_each {A B : Type} (body : A -> result B) (l : list A)
  : result (list B) :=
  match l with
  | [] => Ok []
  | a :: l' =>
      b <- body a ;;
      bs <- for_each body l' ;;
      Ok (b :: bs)
  end.

Definition KeyError : exn := Exn "KeyError".

(** Lookup by label in a pandas Series: [s[name]] raises [KeyError] on a
    missing label, [s.get(name, default)] does not. *)
Fixpoint assoc {A : Type} (name : string) (s : list (string * A)) : option A :=
  match s with
  | [] => None
  | (k, v) :: s' => if String.eqb k name then Some v else assoc name s'
  end.

Definition getitem {A : Type} (s : list (string * A)) (name : string) : result A :=
  match assoc name s with
  | Some v => Ok v
  | None => Raise KeyError
  end.

(* ================================================================== *)
(** ** Design matrices and the estimators *)

(** A dependent column, the exogenous columns and the rows they are
    read from. *)
Record design : Type := mkDesign {
  d_dep  : string;
  d_exog : list string;
  d_rows : frame
}.

(** [DataFrame.dropna()] over the named columns. *)
Definition complete (cols : list string) (r : row) : bool :=
  forallb (fun c => notna (cell r c)) cols.

Definition dropna (cols : list string) (f : frame) : frame :=
  filter (complete cols) f.

(** Number of rows of entity [e]: [value_counts()[e]]. *)
Definition count_entity (e : string) (f : frame) : nat :=
  List.length (filter (fun r => String.eqb (entity r) e) f).

(** [nunique()] of the two index levels. *)
Definition n_entities (f : frame) : nat :=
  List.length (nodup string_dec (map entity f)).

Definition n_times (f : frame) : nat :=
  List.length (nodup Z.eq_dec (map year f)).

(** What a fit exposes.  Coefficients, covariances and p-values of a
    completed fit are finite numbers, keyed by regressor name. *)
Record fit_result : Type := mkFit {
  nobs : nat;
  rsquared_within : Q;
  params : list (string * Q);
  pvalues : list (string * Q);
  cov : list (string * list (string * Q))
}.

Inductive cov_type : Type :=
| Unadjusted
| ClusteredEntity
| ClusteredEntityTime.

(** [linearmodels.panel]: both estimators either return a fit or raise.
    [PanelOLS] is always called with entity and time effects; the two
    remaining arguments are [drop_absorbed] and the covariance type. *)
Class Estimator : Type := {
  PanelOLS_fit : bool -> cov_type -> design -> result fit_result;
  RandomEffects_fit : cov_type -> design -> result fit_result
}.

(* ================================================================== *)
(** ** Model A ([model_a_panel_fe.py]) *)

Module ModelA.

Definition ESG := "ESG_Score".
Definition EMPL := "Employees".
Definition ASSETS := "Assets".
Definition DEBT := "Debt".
Definition DEBT_RATIO := "Debt_ratio".
Definition OUTCOMES := ["ROA"; "NIAT"].
Definition LAGS := [0; 1; 2; 3].

(** [df.replace([np.inf, -np.inf], np.nan, inplace=True)] acts on every
    column of the frame. *)
Definition replace_inf (r : row) : row :=
  mkRow (entity r) (year r) (sector r)
        (fun c => if isinf (cell r c) then NaN else cell r c).

Definition build_debt_ratio (df : frame) : frame :=
  map (fun r =>
         replace_inf (set_cell DEBT_RATIO (fdiv (cell r DEBT) (cell r ASSETS)) r))
      df.

Definition drop_singletons (f : frame) : frame :=
  filter (fun r => 2 <=? count_entity (entity r) f) f.

(** Smallest group size; the frame is not empty where it is used. *)
Definition min_count (f : frame) : nat :=
  fold_right Nat.min (List.length f) (map (fun r => count_entity (entity r) f) f).

Definition exog := [ESG; EMPL; DEBT_RATIO].

(** The frame [data] of [fit_one], before the emptiness test. *)
Definition prepare (block : frame) (outcome : string) (lag : nat) : frame :=
  let X := match lag with
           | O => block
           | S _ => assign_column ESG (shift_column ESG lag block) block
           end in
  drop_singletons (dropna (outcome :: exog) X).

(** [None] when [fit_one] returns the [no_estimable_panel] row without
    fitting; otherwise the design handed to [PanelOLS]. *)
Definition fit_input (block : frame) (outcome : string) (lag : nat)
  : option design :=
  let data := prepare block outcome lag in
  if (List.length data =? 0) || (min_count data <? 2) then None
  else Some (mkDesign outcome exog data).

Record out_row : Type := mkOut {
  Subset : string;
  Outcome : string;
  Lag : nat;
  N_obs : nat;
  R2_within : fval;
  coef_ESG : fval;
  p_ESG : fval;
  status : string
}.

Definition fit_one `{Estimator} (block : frame) (outcome : string)
           (lag : nat) (label : string) : result out_row :=
  match fit_input block outcome lag with
  | None =>
      Ok (mkOut label outcome lag 0 NaN NaN NaN "no_estimable_panel")
  | Some d =>
      res <- PanelOLS_fit false ClusteredEntity d ;;
      b <- getitem (params res) ESG ;;
      p <- getitem (pvalues res) ESG ;;
      Ok (mkOut label outcome lag (nobs res) (Num (rsquared_within res))
                (Num b) (Num p) "ok")
  end.

(** The year masks of the COVID split. *)
Definition in_covid (r : row) : bool :=
  (2020 <=? year r)%Z && (year r <=? 2021)%Z.

Definition in_non_covid (r : row) : bool :=
  (year r <? 2020)%Z || (2022 <=? year r)%Z.

Definition covid (df : frame) : frame := filter in_covid df.
Definition non_covid (df : frame) : frame := filter in_non_covid df.
Definition hotels (df : frame) : frame := filter (sector_contains "hotel") df.

(** All (outcome, lag) combinations of one subset, outcomes outermost. *)
Definition combos : list (string * nat) :=
  flat_map (fun oc => map (fun lg => (oc, lg)) LAGS) OUTCOMES.

Definition fit_subset `{Estimator} (sub : frame) (label : string)
  : result (list out_row) :=
  for_each (fun c => fit_one sub (fst c) (snd c) label) combos.

(** The script body after loading: the full sample, then for each of
    the two COVID subsets its fits followed by the hotels fits, which
    sit inside that loop. *)
Definition batch `{Estimator} (raw : frame) : result (list out_row) :=
  let df := build_debt_ratio raw in
  full <- fit_subset df "Full Period" ;;
  rest <- for_each
            (fun ls : string * frame =>
               a <- fit_subset (snd ls) (fst ls) ;;
               h <- fit_subset (hotels df) "Hotels Only" ;;
               Ok (a ++ h))
            [("COVID", covid df); ("Non-COVID", non_covid df)] ;;
  Ok (full ++ List.concat rest).

End ModelA.

(* ================================================================== *)
(** ** Model B ([model_b_panel_fe.py]) *)

Module ModelB.

Definition E := "Environmental_Score".
Definition S := "Social_Score".
Definition G := "Governance_Score".
Definition EMPL := "Employees".
Definition ASSETS := "Assets".
Definition DEBT := "Debt".
Definition DEBT_RATIO := "Debt_ratio".
Definition OUTCOMES := ["ROA"; "NIAT"].
Definition LAGS := [0; 1; 2; 3].

(** The script repeats the two helpers of model A word for word. *)
Definition build_debt_ratio (df : frame) : frame :=
  map (fun r =>
         ModelA.replace_inf
           (set_cell DEBT_RATIO (fdiv (cell r DEBT) (cell r ASSETS)) r))
      df.

Definition drop_singletons (f : frame) : frame :=
  filter (fun r => 2 <=? count_entity (entity r) f) f.

Definition exog := [E; S; G; EMPL; DEBT_RATIO].

(** [for c in (E, S, G): X[c] = X.groupby(level=0)[c].shift(lag)] *)
Definition lag_pillars (lag : nat) (X : frame) : frame :=
  fold_left (fun X' c => assign_column c (shift_column c lag X') X')
            [E; S; G] X.

Definition prepare (block : frame) (outcome : string) (lag : nat) : frame :=
  let X := match lag with
           | O => block
           | Datatypes.S _ => lag_pillars lag block
           end in
  drop_singletons (dropna (outcome :: exog) X).

Definition fit_input (block : frame) (outcome : string) (lag : nat)
  : option design :=
  let data := prepare block outcome lag in
  if (List.length data =? 0) || (ModelA.min_count data <? 2) then None
  else Some (mkDesign outcome exog data).

Record out_row : Type := mkOut {
  Subset : string;
  Outcome : string;
  Lag : nat;
  N_obs : nat;
  R2_within : fval;
  coef_E : fval; p_E : fval;
  coef_S : fval; p_S : fval;
  coef_G : fval; p_G : fval;
  status : string
}.

(** [series.get(name, np.nan)] *)
Definition get_or_nan (s : list (string * Q)) (name : string) : fval :=
  match assoc name s with
  | Some q => Num q
  | None => NaN
  end.

Definition fit_one `{Estimator} (block : frame) (outcome : string)
           (lag : nat) (label : string) : result out_row :=
  match fit_input block outcome lag with
  | None =>
      Ok (mkOut label outcome lag 0 NaN NaN NaN NaN NaN NaN NaN
                "no_estimable_panel")
  | Some d =>
      res <- PanelOLS_fit false ClusteredEntity d ;;
      Ok (mkOut label outcome lag (nobs res) (Num (rsquared_within res))
                (get_or_nan (params res) E) (get_or_nan (pvalues res) E)
                (get_or_nan (params res) S) (get_or_nan (pvalues res) S)
                (get_or_nan (params res) G) (get_or_nan (pvalues res) G)
                "ok")
  end.

Definition in_covid (r : row) : bool :=
  (2020 <=? year r)%Z && (year r <=? 2021)%Z.

Definition in_non_covid (r : row) : bool :=
  (year r <? 2020)%Z || (2022 <=? year r)%Z.

Definition covid (df : frame) : frame := filter in_covid df.
Definition non_covid (df : frame) : frame := filter in_non_covid df.
Definition hotels (df : frame) : frame := filter (sector_contains "hotel") df.

Definition combos : list (string * nat) :=
  flat_map (fun oc => map (fun lg => (oc, lg)) LAGS) OUTCOMES.

Definition batch `{Estimator} (raw : frame) : result (list out_row) :=
  let df := build_debt_ratio raw in
  per_subset <- for_each
    (fun ls : string * frame =>
       for_each (fun c => fit_one (snd ls) (fst c) (snd c) (fst ls)) combos)
    [("Full Period", df); ("COVID", covid df);
     ("Non-COVID", non_covid df); ("Hotels Only", hotels df)] ;;
  Ok (List.concat per_subset).

End ModelB.

(* ================================================================== *)
(** ** Controls summary ([controls_summary.py]) *)

Module Controls.

Definition Y_LIST := ["ROA"; "NIAT"].
Definition ESG := "ESG_Score".
Definition CONTROLS := ["Employees"; "Debt"].

Definition valid_panel (df_idxed : frame) : bool :=
  (2 <=? n_entities df_idxed)
  && (2 <=? n_times df_idxed)
  && (10 <? List.length df_idxed).

Record out_row : Type := mkOut {
  panel : string;
  outcome : string;
  lag : nat;
  entities : nat;
  obs_used : nat;
  clustered_SEs : string;
  coef_Employees : fval; p_Employees : fval;
  coef_Debt : fval; p_Debt : fval;
  note : string
}.

Definition lag_name (lag : nat) : string :=
  String.append (String.append ESG "_lag")
                (NilEmpty.string_of_uint (Nat.to_uint lag)).

Definition get_or_nan (s : list (string * Q)) (name : string) : fval :=
  match assoc name s with
  | Some q => Num q
  | None => NaN
  end.

(** The [try] block ends in [except Exception], so whatever the
    estimator raises becomes the note of the row. *)
Definition try_fit `{Estimator} (df_idxed : frame) (ycol : string)
           (lag : nat) (label : string) : out_row :=
  let row0 := mkOut label ycol lag (n_entities df_idxed)
                    (List.length df_idxed) "entity+year"
                    NaN NaN NaN NaN "" in
  let exog := lag_name lag :: CONTROLS in
  match PanelOLS_fit false ClusteredEntityTime (mkDesign ycol exog df_idxed) with
  | Ok res =>
      mkOut (panel row0) (outcome row0) (Controls.lag row0) (entities row0)
            (obs_used row0) (clustered_SEs row0)
            (get_or_nan (params res) "Employees")
            (get_or_nan (pvalues res) "Employees")
            (get_or_nan (params res) "Debt")
            (get_or_nan (pvalues res) "Debt")
            (note row0)
  | Raise e =>
      mkOut (panel row0) (outcome row0) (Controls.lag row0) (entities row0)
            (obs_used row0) (clustered_SEs row0)
            (coef_Employees row0) (p_Employees row0)
            (coef_Debt row0) (p_Debt row0)
            (String.append "skipped: " (exn_name e))
  end.

(** The frame [df_lag] of one lag, after [dropna]. *)
Definition lag_frame (df_idxed : frame) (lag : nat) : frame :=
  let df_lag := assign_column (lag_name lag) (shift_column ESG lag df_idxed)
                              df_idxed in
  dropna (Y_LIST ++ lag_name lag :: CONTROLS) df_lag.

Definition skip_row (df_lag : frame) (label y : string) (lag : nat) : out_row :=
  mkOut label y lag
        (if List.length df_lag =? 0 then 0 else n_entities df_lag)
        (List.length df_lag) "entity+year" NaN NaN NaN NaN
        "skipped: insufficient panel".

Definition rows_of_lag `{Estimator} (df_idxed : frame) (label : string)
           (lag : nat) : list out_row :=
  let df_lag := lag_frame df_idxed lag in
  if negb (valid_panel df_lag)
  then map (fun y => skip_row df_lag label y lag) Y_LIST
  else map (fun y => try_fit df_lag y lag label) Y_LIST.

Definition run_block `{Estimator} (df_idxed : frame) (label : string)
  : list out_row :=
  flat_map (rows_of_lag df_idxed label) [0; 1; 2].

(** [Series.between(lo, hi)], both ends included. *)
Definition between (lo hi : Z) (r : row) : bool :=
  (lo <=? year r)%Z && (year r <=? hi)%Z.

Definition in_covid (r : row) : bool := between 2020 2021 r.

Definition in_noncovid (r : row) : bool :=
  between 2008 2019 r || between 2022 2024 r.

Definition covid (df : frame) : frame := filter in_covid df.
Definition noncovid (df : frame) : frame := filter in_noncovid df.
Definition hotels (df : frame) : frame := filter (sector_contains "hotel") df.

(** The four result tables written by [main]. *)
Definition main `{Estimator} (df : frame) : list (list out_row) :=
  [ run_block df "Full sample";
    run_block (hotels df) "Hotels only";
    run_block (covid df) "COVID 2020–2021";
    run_block (noncovid df) "Non-COVID 2008–2019 & 2022–2024" ].

End Controls.

(* ================================================================== *)
(** ** Hausman comparison ([hausman_appendix_A1.py]) *)

Module Hausman.

Definition vec := list Q.
Definition matrix := list (list Q).

(** numpy, scipy and the two roundings of the result row.  [inv]
    answers [None] where [np.linalg.inv] raises [LinAlgError]. *)
Class Numerics : Type := {
  inv : matrix -> option matrix;
  pinv : matrix -> matrix;
  chi2_cdf : Q -> nat -> Q;
  round4 : Q -> Q;
  sig6 : Q -> Q
}.

Definition Qlt_bool (a b : Q) : bool := negb (Qle_bool b a).

(** [np.sum] of a list of numbers. *)
Definition Qsum (xs : list Q) : Q := fold_right Qplus 0%Q xs.

Definition dot (a b : vec) : Q :=
  Qsum (map (fun ab => (fst ab * snd ab)%Q) (combine a b)).

Definition column (j : nat) (M : matrix) : vec :=
  map (fun r => nth j r 0%Q) M.

Definition ncols (M : matrix) : nat := List.length (hd [] M).

(** [d @ M] for a one-dimensional [d]. *)
Definition vecmat (d : vec) (M : matrix) : vec :=
  map (fun j => dot d (column j M)) (seq 0 (ncols M)).

Definition vsub (a b : vec) : vec :=
  map (fun ab => (fst ab - snd ab)%Q) (combine a b).

Definition msub (A B : matrix) : matrix :=
  map (fun ab => vsub (fst ab) (snd ab)) (combine A B).

(** [series[keep_idx]] *)
Definition take_labels (s : list (string * Q)) (keep_idx : list string)
  : result vec :=
  for_each (getitem s) keep_idx.

(** [frame.loc[keep_idx, keep_idx]] *)
Definition take_block (c : list (string * list (string * Q)))
           (keep_idx : list string) : result matrix :=
  for_each (fun i => r <- getitem c i ;; take_labels r keep_idx) keep_idx.

(** The inverse used for the statistic, and whether it is the
    pseudo-inverse of the [except] branch. *)
Definition inverse_or_pinv `{Numerics} (V : matrix) : matrix * bool :=
  match inv V with
  | Some W => (W, false)
  | None => (pinv V, true)
  end.

Definition hausman_stat `{Numerics} (fe_res re_res : fit_result)
           (keep_idx : list string) : result (Q * nat * Q) :=
  b_fe <- take_labels (params fe_res) keep_idx ;;
  b_re <- take_labels (params re_res) keep_idx ;;
  V_fe <- take_block (cov fe_res) keep_idx ;;
  V_re <- take_block (cov re_res) keep_idx ;;
  let d := vsub b_fe b_re in
  let V := msub V_fe V_re in
  let Vinv := fst (inverse_or_pinv V) in
  let stat := dot (vecmat d Vinv) d in
  let df := List.length keep_idx in
  let pval := (1 - chi2_cdf stat df)%Q in
  Ok (stat, df, pval).

(** Population variance of a non-empty list. *)
Definition mean (xs : list Q) : Q :=
  (Qsum xs / inject_Z (Z.of_nat (List.length xs)))%Q.

Definition var_pop (xs : list Q) : Q :=
  mean (map (fun x => (x - mean xs) * (x - mean xs))%Q xs).

Fixpoint finite_values (vs : list fval) : option (list Q) :=
  match vs with
  | [] => Some []
  | Num q :: vs' =>
      match finite_values vs' with
      | Some qs => Some (q :: qs)
      | None => None
      end
  | _ :: _ => None
  end.

(** [np.isclose(X[c].std(ddof=0), 0.0)]: the standard deviation is at
    most [atol = 1e-8], that is, the variance at most [1e-16].  The
    deviation of an empty column, or of one holding an infinity, is
    NaN and is close to nothing. *)
Definition is_const (vs : list fval) : bool :=
  match finite_values vs with
  | Some (q :: qs) => Qle_bool (var_pop (q :: qs)) (1 # 10000000000000000)
  | _ => false
  end.

Definition ESG_lag := "ESG_lag".

Definition build_design (df_idx : frame) (y_col esg_col emp_col debt_col : string)
           (lag : nat) : design :=
  let df := assign_column ESG_lag (shift_column esg_col lag df_idx) df_idx in
  let X := [ESG_lag; emp_col; debt_col] in
  let kept := dropna (y_col :: X) df in
  let const_cols :=
    filter (fun c => is_const (map (fun r => cell r c) kept)) X in
  mkDesign y_col
           (filter (fun c => negb (existsb (String.eqb c) const_cols)) X)
           kept.

Record labels : Type := mkLabels {
  roa : string; niat : string; esg : string; emp : string; debt : string
}.

Record out_row : Type := mkOut {
  sample : string;
  outcome : string;
  lag : nat;
  chi2 : fval;
  df : nat;
  p : fval;
  decision : string
}.

(** [None] when [run_block] records the "NA" row; otherwise the design
    given to both estimators. *)
Definition fit_input (panel : frame) (L : labels) (ycol : string) (lag : nat)
  : option design :=
  let d := build_design panel ycol (esg L) (emp L) (debt L) lag in
  if (List.length (d_rows d) =? 0) || (List.length (d_exog d) =? 0)
  then None else Some d.

Definition decide (pval : Q) : string :=
  if Qlt_bool pval (5 # 100) then "FE" else "RE".

(** The row computed from two fits. *)
Definition compare `{Numerics} (fe_res re_res : fit_result)
           (keep_idx : list string) (sample_label out_name : string)
           (lag : nat) : result out_row :=
  s <- hausman_stat fe_res re_res keep_idx ;;
  let '(chi2v, df, pval) := s in
  Ok (mkOut sample_label out_name lag (Num (round4 chi2v)) df
            (Num (sig6 pval)) (decide pval)).

Definition na_row (sample_label out_name : string) (lag : nat) : out_row :=
  mkOut sample_label out_name lag NaN 0 NaN "NA".

Definition block_row `{Estimator} `{Numerics} (panel : frame) (L : labels)
           (sample_label : string) (oy : string * string) (lag : nat)
  : result out_row :=
  match fit_input panel L (snd oy) lag with
  | None => Ok (na_row sample_label (fst oy) lag)
  | Some d =>
      fe_res <- PanelOLS_fit true Unadjusted d ;;
      re_res <- RandomEffects_fit Unadjusted d ;;
      compare fe_res re_res (d_exog d) sample_label (fst oy) lag
  end.

Definition run_block `{Estimator} `{Numerics} (panel : frame) (L : labels)
           (sample_label : string) : result (list out_row) :=
  for_each (fun c : (string * string) * nat =>
              block_row panel L sample_label (fst c) (snd c))
           (flat_map (fun oy => map (fun lag => (oy, lag)) (seq 0 4))
                     [("ROA", roa L); ("NIAT", niat L)]).

(** "keep firms with >= 3 years" of the script body. *)
Definition keep_min_years (n : nat) (df : frame) : frame :=
  filter (fun r => n <=? count_entity (entity r) df) df.

(** The quadratic form written as the double sum over the shared
    regressors, against which [d.T @ Vinv @ d] is compared. *)
Definition quad_form (d : vec) (W : matrix) : Q :=
  Qsum (map (fun i =>
               Qsum (map (fun j =>
                            (nth i d 0 * nth j (nth i W []) 0 * nth j d 0)%Q)
                         (seq 0 (List.length d))))
            (seq 0 (List.length d))).

(** A fit exposes exactly the regressors [keep_idx]: every name is a
    label of [params], of [cov] and of every row of [cov]. *)
Definition has_labels {A : Type} (s : list (string * A))
           (keep_idx : list string) : Prop :=
  Forall (fun k => assoc k s <> None) keep_idx.

Definition shares (res : fit_result) (keep_idx : list string) : Prop :=
  has_labels (params res) keep_idx
  /\ Forall (fun i => exists r, assoc i (cov res) = Some r
                                /\ has_labels r keep_idx) keep_idx.

(** The coefficient and the covariance entry a fit holds under given
    names. *)
Definition coef (res : fit_result) (k : string) : Q :=
  match assoc k (params res) with
  | Some q => q
  | None => 0%Q
  end.

Definition covar (res : fit_result) (i j : string) : Q :=
  match assoc i (cov res) with
  | Some r => match assoc j r with Some q => q | None => 0%Q end
  | None => 0%Q
  end.

(** The difference vector and the difference of covariances, as the
    comparison is specified: entry by entry over the shared regressors. *)
Definition spec_d (fe_res re_res : fit_result) (keep_idx : list string) : vec :=
  map (fun k => (coef fe_res k - coef re_res k)%Q) keep_idx.

Definition spec_V (fe_res re_res : fit_result) (keep_idx : list string)
    : matrix :=
  map (fun i => map (fun j => (covar fe_res i j - covar re_res i j)%Q) keep_idx)
      keep_idx.

Definition square (n : nat) (M : matrix) : Prop :=
  List.length M = n /\ Forall (fun r => List.length r = n) M.

(** [inv] and [pinv] return a matrix of the shape they were given. *)
Definition keeps_shape (N : Numerics) : Prop :=
  forall (n : nat) (V : matrix),
    square n V -> square n (fst (inverse_or_pinv V)).

(** Entry-wise equality of rational vectors. *)
Definition veq (a b : vec) : Prop := Forall2 Qeq a b.

(** [V] is positive semi-definite on vectors of its size. *)
Definition psd (n : nat) (V : matrix) : Prop :=
  forall u : vec, List.length u = n -> (0 <= dot (vecmat u V) u)%Q.

(** The comparison with a single shared regressor, in exact arithmetic:
    a 1 x 1 matrix is inverted by taking the reciprocal, and [inv] raises
    on the zero matrix, whose pseudo-inverse is zero.  The distribution
    function is a rational stand-in that vanishes, as [chi2.cdf] does, at
    every non-positive statistic; the roundings leave the small integers
    used below as they are. *)
Definition scalar_numerics : Numerics :=
  {| inv := fun M =>
              match M with
              | [[a]] => if Qeq_bool a 0 then None else Some [[(/ a)%Q]]
              | _ => None
              end;
     pinv := fun M =>
               match M with
               | [[a]] => [[if Qeq_bool a 0 then 0%Q else (/ a)%Q]]
               | _ => M
               end;
     chi2_cdf := fun x _ => if Qle_bool x 0 then 0%Q else (x / (1 + x))%Q;
     round4 := fun q => q;
     sig6 := fun q => q |}.

(** A fit with the one regressor "x". *)
Definition one_fit (b v : Q) : fit_result :=
  mkFit 12 0 [("x", b)] [("x", 0%Q)] [("x", [("x", v)])].

(** The result carries a flag for the pseudo-inverse fallback: some
    function of the result row tells whether the fallback was taken. *)
Definition fallback_flagged (N : Numerics) : Prop :=
  exists flag : out_row -> bool,
    forall fe_res re_res keep_idx sample_label out_name lag r,
    compare fe_res re_res keep_idx sample_label out_name lag = Ok r ->
    flag r = snd (inverse_or_pinv (spec_V fe_res re_res keep_idx)).

End Hausman.

(* ================================================================== *)
(** ** Vocabulary of the properties *)

(** The rows of one entity, in frame order. *)
Definition entity_rows (e : string) (f : frame) : frame :=
  filter (fun r => String.eqb (entity r) e) f.

(** A record whose numeric columns all hold the integer [v]. *)
Definition obs (e : string) (y : Z) (v : Z) : row :=
  mkRow e y None (fun _ => Num (inject_Z v)).

(** A demonstration firm observed in four consecutive years. *)
Definition demo_firm : frame :=
  [obs "F1" 2018 10; obs "F1" 2019 20; obs "F1" 2020 30; obs "F1" 2021 40].




(** No entity of the frame has a single row. *)
Definition no_singletons (f : frame) : Prop :=
  forall r, In r f -> 2 <= count_entity (entity r) f.

Definition index_of (f : frame) : list (string * Z) :=
  map (fun r => (entity r, year r)) f.

(** Firm A with three years and firm B with four. *)
Definition two_firms : frame :=
  [obs "A" 2018 18; obs "A" 2019 19; obs "A" 2020 20;
   obs "B" 2018 23; obs "B" 2019 24; obs "B" 2020 25; obs "B" 2021 26].

Definition plain_labels : Hausman.labels :=
  Hausman.mkLabels "ROA" "NIAT" "ESG_Score" "Employees" "Debt".

(** No cell of the frame is an infinity. *)
Definition inf_free (f : frame) : Prop :=
  forall r, In r f -> forall c, isinf (cell r c) = false.

(** The leverage ratio of a raw record, before the infinities are
    replaced. *)
Definition raw_ratio (r0 : row) : fval :=
  fdiv (cell r0 "Debt") (cell r0 "Assets").

(** [r] stems from the raw record [r0]: same index, and its leverage
    cell is the ratio of [r0], which is a finite number. *)
Definition finite_ratio_of (r r0 : row) : Prop :=
  entity r = entity r0
  /\ year r = year r0
  /\ cell r "Debt_ratio" = raw_ratio r0
  /\ isfinite (raw_ratio r0) = true.

(** A frame whose rows all stem, index and leverage cell, from rows of
    [df]. *)
Definition ratio_from (df X : frame) : Prop :=
  forall r, In r X ->
    exists r', In r' df /\ entity r = entity r' /\ year r = year r'
               /\ cell r "Debt_ratio" = cell r' "Debt_ratio".

(** Two complete years of one firm. *)
Definition two_years : frame := [obs "A" 2018 18; obs "A" 2019 19].

(** An estimator that finds every regressor absorbed by the effects. *)
Definition absorbing : Estimator :=
  {| PanelOLS_fit := fun _ _ _ => Raise (Exn "AbsorbingEffectError");
     RandomEffects_fit := fun _ _ => Raise (Exn "AbsorbingEffectError") |}.


(** Two fits of one regressor whose covariances differ by one. *)
Definition fe_demo : fit_result := Hausman.one_fit 3 2.
Definition re_demo : fit_result := Hausman.one_fit 1 1.

From Stdlib Require Import Sorted.

(* ================================================================== *)
(** ** Dictionaries and column resolution *)

(** A Python dict with string keys: the items in insertion order.
    Setting a key that is present replaces its value where it stands. *)
Fixpoint dict_set {A : Type} (k : string) (v : A) (d : list (string * A))
  : list (string * A) :=
  match d with
  | [] => [(k, v)]
  | (k', v') :: d' =>
      if String.eqb k' k then (k', v) :: d' else (k', v') :: dict_set k v d'
  end.

(** A dict comprehension over [items], read left to right. *)
Definition dict_of {A : Type} (items : list (string * A)) : list (string * A) :=
  fold_left (fun d kv => dict_set (fst kv) (snd kv) d) items [].

(** The first element on which [f] answers. *)
Fixpoint first_some {A B : Type} (f : A -> option B) (l : list A) : option B :=
  match l with
  | [] => None
  | a :: l' =>
      match f a with
      | Some b => Some b
      | None => first_some f l'
      end
  end.

(** [re.sub(pattern, "", s)] for a pattern that is one negated character
    class: the characters of the class are kept. *)
Fixpoint keep_chars (keep : ascii -> bool) (s : string) : string :=
  match s with
  | EmptyString => EmptyString
  | String a s' =>
      if keep a then String a (keep_chars keep s') else keep_chars keep s'
  end.

Definition is_lower_letter (a : ascii) : bool :=
  let n := nat_of_ascii a in (97 <=? n) && (n <=? 122).

Definition is_digit (a : ascii) : bool :=
  let n := nat_of_ascii a in (48 <=? n) && (n <=? 57).

(** ** Column resolution of the Hausman script

    Column names and aliases are ASCII strings, on which [lower] is
    [str.lower]. *)

Module Columns.

(** [cols = {c.lower(): c for c in df.columns}] *)
Definition cols_of (columns : list string) : list (string * string) :=
  dict_of (map (fun c => (lower c, c)) columns).

(** [re.sub(r"[^a-z]", "", k)] *)
Definition letters (k : string) : string := keep_chars is_lower_letter k.

(** [norm = {re.sub(r"[^a-z]", "", k): v for k, v in cols.items()}] *)
Definition norm_of (cols : list (string * string)) : list (string * string) :=
  dict_of (map (fun kv => (letters (fst kv), snd kv)) cols).

(** The three passes of [pick], in their order: a name equal to an alias
    up to case, then equal up to case and non-letters, then a name that
    contains an alias. *)
Definition exact_pass (cols : list (string * string)) (names : list string)
  : option string :=
  first_some (fun n => assoc (lower n) cols) names.

Definition letters_pass (cols : list (string * string)) (names : list string)
  : option string :=
  first_some (fun n => assoc (letters (lower n)) (norm_of cols)) names.

Definition substring_pass (cols : list (string * string)) (names : list string)
  : option string :=
  first_some (fun kv : string * string =>
                first_some (fun n => if contains (lower n) (fst kv)
                                     then Some (snd kv) else None) names)
             cols.

Definition pick (columns : list string) (names : list string) : result string :=
  let cols := cols_of columns in
  match exact_pass cols names with
  | Some c => Ok c
  | None =>
      match letters_pass cols names with
      | Some c => Ok c
      | None =>
          match substring_pass cols names with
          | Some c => Ok c
          | None => Raise KeyError
          end
      end
  end.

(** The aliases under which [resolve_columns] looks for the year. *)
Definition year_names := ["Year"; "FY"; "FiscalYear"; "Fiscal_Year"; "fyear"].

End Columns.

(** ** Column detection of the VIF script *)

Module Vif.

(** [re.sub(r"[^a-z0-9]", "", s.lower())] *)
Definition _norm (s : string) : string :=
  keep_chars (fun a => is_lower_letter a || is_digit a) (lower s).

(** [m = {_norm(c): c for c in df.columns}] *)
Definition norm_map (columns : list string) : list (string * string) :=
  dict_of (map (fun c => (_norm c, c)) columns).

Definition find_col (columns : list string) (candidates : list string)
  : result string :=
  match first_some (fun c => assoc (_norm c) (norm_map columns)) candidates with
  | Some col => Ok col
  | None => Raise KeyError
  end.

Definition upper_ascii (a : ascii) : ascii :=
  let n := nat_of_ascii a in
  if (97 <=? n) && (n <=? 122) then ascii_of_nat (n - 32) else a.

(** [col.upper()[0]]; indexing the empty string raises. *)
Definition initial_of (col : string) : result ascii :=
  match col with
  | EmptyString => Raise (Exn "IndexError")
  | String a _ => Ok (upper_ascii a)
  end.

Definition pillar_candidates :=
  ["Environmental"; "E"; "Social"; "S"; "Governance"; "G"; "Env"; "Soc"; "Gov"].

(** One turn of the detection loop on the state (pillars, seen); only
    [KeyError] is caught. *)
Definition detect_step (columns : list string)
           (st : list string * list ascii) (cand : string)
  : result (list string * list ascii) :=
  match find_col columns [cand] with
  | Raise e =>
      if String.eqb (exn_name e) "KeyError" then Ok st else Raise e
  | Ok col =>
      i <- initial_of col ;;
      if existsb (Ascii.eqb i) (snd st) then Ok st
      else Ok (fst st ++ [col], i :: snd st)
  end.

Fixpoint detect_from (columns : list string) (st : list string * list ascii)
         (cands : list string) : result (list string * list ascii) :=
  match cands with
  | [] => Ok st
  | cand :: rest =>
      st' <- detect_step columns st cand ;;
      detect_from columns st' rest
  end.

Definition detect_pillars (columns : list string)
  : result (list string * list ascii) :=
  detect_from columns ([], []) pillar_candidates.

(** [seen >= {"E", "S", "G"}] *)
Definition has_pillars (seen : list ascii) : bool :=
  forallb (fun i => existsb (Ascii.eqb i) seen) ["E"; "S"; "G"]%char.

End Vif.

(* ================================================================== *)
(** ** Vocabulary of the further properties *)

(** The three ways in which a column name answers to an alias. *)
Definition same_up_to_case (c n : string) : Prop := lower c = lower n.

Definition same_letters (c n : string) : Prop :=
  Columns.letters (lower c) = Columns.letters (lower n).

Definition mentions (c n : string) : Prop :=
  contains (lower n) (lower c) = true.

(** The state of the pillar detection is well formed for a table: the
    pillars are columns of the table, the initials seen are pairwise
    different, and they are the initials of the pillars, latest first. *)
Definition pillars_ok (columns : list string) (st : list string * list ascii)
  : Prop :=
  incl (fst st) columns
  /\ NoDup (snd st)
  /\ Forall2 (fun col i => Vif.initial_of col = Ok i) (fst st) (rev (snd st)).

(** One firm observed in the two years of the COVID window. *)
Definition covid_years : frame := [obs "A" 2020 18; obs "A" 2021 19].

(** Within every firm the years strictly increase in frame order, as
    they do after sorting a table with a unique (entity, year) index. *)
Definition time_sorted (f : frame) : Prop :=
  forall e, StronglySorted Z.lt (map year (entity_rows e f)).

(** A fixed-effects fit from which the only regressor was dropped as
    absorbed. *)
Definition absorbed_fit : fit_result := mkFit 12 0 [] [] [].

(* ================================================================== *)
(** ** Residual diagnostics ([model_diagnostics.py]) *)

Module Diagnostics.

(** A residual series: values indexed by (entity, time). *)
Definition series := list ((string * Z) * fval).


Definition entity_of (x : (string * Z) * fval) : string := fst (fst x).







(** [get_level_values(0).nunique()] of the series. *)
Definition n_entities (e : series) : nat :=
  List.length (nodup string_dec (map entity_of e)).

End Diagnostics.


(** The two shapes of a row of the Hausman table. *)
Definition not_compared (r : Hausman.out_row) : Prop :=
  Hausman.decision r = "NA" /\ Hausman.chi2 r = NaN /\ Hausman.p r = NaN
  /\ Hausman.df r = 0.

Definition compared (r : Hausman.out_row) : Prop :=
  (Hausman.decision r = "FE" \/ Hausman.decision r = "RE")
  /\ 1 <= Hausman.df r <= 3.

(* ================================================================== *)
(** * Properties *)

(** ** Lag Builder *)

Section GroupShiftFacts.
Variable V : Type.
Variable na : V.

Lemma window_step (X : list V) (n m : nat) :
  n + S m <= List.length X ->
  skipn n (firstn (n + S m) X)
  = nth n X na :: skipn (S n) (firstn (S n + m) X).
Proof.
  revert X. induction n as [|n IH]; intros X Hlen.
  - destruct X as [|x X]; simpl in *; [lia | reflexivity].
  - destruct X as [|x X]; simpl in Hlen; [lia |].
    change (S n + S m) with (S (n + S m)).
    change (S (S n) + m) with (S (S n + m)).
    rewrite !firstn_cons, !skipn_cons. simpl nth.
    apply IH. lia.
Qed.

Lemma lagged_window (h : history V) (L : nat) (e : string) (v : V)
      (rest : list V) :
  nth (List.length (h e)) (repeat na L ++ rev (h e) ++ v :: rest) na
  = lagged na h L e v.
Proof.
  destruct L as [|k]; unfold lagged.
  - simpl repeat. simpl app.
    rewrite app_nth2; rewrite length_rev; [|lia].
    rewrite Nat.sub_diag. reflexivity.
  - destruct (Nat.ltb_spec k (List.length (h e))) as [Hlt|Hge].
    + rewrite app_nth2; rewrite repeat_length; [|lia].
      rewrite app_nth1 by (rewrite length_rev; lia).
      rewrite rev_nth by lia.
      f_equal. lia.
    + rewrite app_nth1 by (rewrite repeat_length; lia).
      rewrite (nth_overflow (h e)) by lia.
      apply nth_repeat.
Qed.

Lemma group_shift_from_window (col : list (string * V)) :
  forall (h : history V) (L : nat) (e : string),
    group_values e (rekey col (group_shift_from na h L col))
    = skipn (List.length (h e))
            (firstn (List.length (h e) + List.length (group_values e col))
                    (repeat na L ++ rev (h e) ++ group_values e col)).
Proof.
  induction col as [|[e' v] rest IH]; intros h L e.
  - simpl. rewrite Nat.add_0_r, app_nil_r.
    rewrite skipn_firstn_comm, Nat.sub_diag. reflexivity.
  - unfold rekey in *. simpl.
    destruct (String.eqb_spec e' e) as [->|Hne].
    + rewrite IH. unfold push at 1 2 3. rewrite String.eqb_refl.
      simpl List.length. simpl rev. rewrite <- app_assoc. simpl app.
      rewrite window_step
        by (rewrite !length_app, repeat_length, length_rev; simpl; lia).
      rewrite lagged_window. reflexivity.
    + rewrite IH. unfold push.
      destruct (String.eqb_spec e e') as [Heq|_]; [congruence |].
      reflexivity.
Qed.

(** Within each group the shifted column is the source column moved
    down by [L] places and cut to the group's length. *)
Lemma group_shift_window (col : list (string * V)) (L : nat) (e : string) :
  group_values e (rekey col (group_shift na L col))
  = firstn (List.length (group_values e col))
           (repeat na L ++ group_values e col).
Proof.
  unfold group_shift. rewrite group_shift_from_window. reflexivity.
Qed.

Lemma group_shift_from_length (col : list (string * V)) :
  forall h L, List.length (group_shift_from na h L col) = List.length col.
Proof.
  induction col as [|[e v] rest IH]; intros h L; simpl; [reflexivity|].
  now rewrite IH.
Qed.

Lemma group_shift_from_zero (col : list (string * V)) :
  forall h, group_shift_from na h 0 col = map snd col.
Proof.
  induction col as [|[e v] rest IH]; intros h; simpl; [reflexivity|].
  now rewrite IH.
Qed.

Lemma nth_shifted (vs : list V) (L i : nat) :
  i < List.length vs ->
  nth i (firstn (List.length vs) (repeat na L ++ vs)) na
  = if i <? L then na else nth (i - L) vs na.
Proof.
  intros Hi.
  rewrite nth_firstn.
  destruct (Nat.ltb_spec i (List.length vs)) as [_|]; [|lia].
  destruct (Nat.ltb_spec i L) as [Hlt|Hge].
  - rewrite app_nth1 by (rewrite repeat_length; lia). apply nth_repeat.
  - rewrite app_nth2; rewrite repeat_length; [reflexivity | lia].
Qed.
End GroupShiftFacts.

Lemma keyed_group_values (c : string) (e : string) (f : frame) :
  group_values e (keyed_column c f) = map (fun r => cell r c) (entity_rows e f).
Proof.
  induction f as [|r f IH]; simpl; [reflexivity|].
  destruct (String.eqb (entity r) e); simpl; now rewrite IH.
Qed.

Lemma assigned_group_values (c : string) (e : string) (f : frame) :
  forall vals : list fval,
    List.length vals = List.length f ->
    map (fun r => cell r c) (entity_rows e (assign_column c vals f))
    = group_values e (combine (map entity f) vals).
Proof.
  induction f as [|r f IH]; intros [|v vals] Hlen; simpl in *;
    try reflexivity; try discriminate.
  destruct (String.eqb (entity r) e); simpl.
  - rewrite String.eqb_refl. f_equal. apply IH. lia.
  - apply IH. lia.
Qed.

Lemma shift_column_length (c : string) (L : nat) (f : frame) :
  List.length (shift_column c L f) = List.length f.
Proof.
  unfold shift_column, group_shift.
  rewrite group_shift_from_length. unfold keyed_column. apply length_map.
Qed.

Lemma rekey_keyed (c : string) (f : frame) (vals : list fval) :
  rekey (keyed_column c f) vals = combine (map entity f) vals.
Proof.
  unfold rekey, keyed_column. rewrite map_map. reflexivity.
Qed.

(** The lagged column of one entity's rows, read off the frame that
    received it. *)
Lemma lagged_group (f : frame) (c c' : string) (L : nat) (e : string) :
  map (fun r => cell r c')
      (entity_rows e (assign_column c' (shift_column c L f) f))
  = firstn (List.length (entity_rows e f))
           (repeat NaN L ++ map (fun r => cell r c) (entity_rows e f)).
Proof.
  rewrite assigned_group_values by apply shift_column_length.
  rewrite <- rekey_keyed with (c := c).
  unfold shift_column. rewrite group_shift_window.
  rewrite keyed_group_values, length_map. reflexivity.
Qed.

(** C3.  For every frame (sorted or not), source column [c], target
    column [c'] and lag [L], the lagged column restricted to the rows of
    one entity has the length of that group; its [i]-th entry is missing
    for [i < L] and is otherwise the source value of the group's
    [(i-L)]-th row, whatever the years of the rows are; a lag of zero
    returns the column as it is; and a firm observed in 2018..2021 with
    values 10, 20, 30, 40 gets NaN, 10, 20, 30 at lag one and
    NaN, NaN, 10, 20 at lag two. *)
Theorem lag_builder_by_group_position :
  forall (f : frame) (c c' : string) (L : nat) (e : string),
    let src := map (fun r => cell r c) (entity_rows e f) in
    let out := map (fun r => cell r c')
                   (entity_rows e (assign_column c' (shift_column c L f) f)) in
    List.length out = List.length src
    /\ (forall i, i < List.length src ->
                  nth i out NaN = if i <? L then NaN else nth (i - L) src NaN)
    /\ shift_column c 0 f = map (fun r => cell r c) f
    /\ shift_column "v" 1 demo_firm
       = [NaN; Num (inject_Z 10); Num (inject_Z 20); Num (inject_Z 30)]
    /\ shift_column "v" 2 demo_firm
       = [NaN; NaN; Num (inject_Z 10); Num (inject_Z 20)].
Proof.
  intros f c c' L e src out.
  assert (Hout : out = firstn (List.length src) (repeat NaN L ++ src)).
  { unfold out, src. rewrite lagged_group, length_map. reflexivity. }
  split; [|split; [|split; [|split]]].
  - rewrite Hout, length_firstn, length_app, repeat_length. lia.
  - intros i Hi. rewrite Hout. apply nth_shifted. exact Hi.
  - unfold shift_column, group_shift. rewrite group_shift_from_zero.
    unfold keyed_column. rewrite map_map. reflexivity.
  - reflexivity.
  - reflexivity.
Qed.

(** The second row of the demonstration firm at lag one. *)
Lemma lag_builder_by_group_position_witness :
  1 < List.length (map (fun r => cell r "v") (entity_rows "F1" demo_firm))
  /\ nth 1 (map (fun r => cell r "v")
                (entity_rows "F1"
                   (assign_column "v" (shift_column "v" 1 demo_firm) demo_firm)))
         NaN
     = Num (inject_Z 10).
Proof.
  split; [simpl; lia|].
  exact (proj1 (proj2 (lag_builder_by_group_position demo_firm "v" "v" 1 "F1"))
               1 ltac:(simpl; lia)).
Defined.

(* ================================================================== *)
(** ** Subset Selector: the COVID split *)









(* ================================================================== *)
(** ** Design matrices: singleton entities *)

Lemma count_entity_filter (g : string -> bool) (e : string) (f : frame) :
  count_entity e (filter (fun r => g (entity r)) f)
  = if g e then count_entity e f else 0.
Proof.
  unfold count_entity.
  induction f as [|r f IH]; simpl.
  - now destruct (g e).
  - destruct (String.eqb_spec (entity r) e) as [Heq|Hne].
    + subst e. destruct (g (entity r)); simpl.
      * rewrite String.eqb_refl. simpl. now rewrite IH.
      * exact IH.
    + destruct (g (entity r)); simpl.
      * destruct (String.eqb_spec (entity r) e); [contradiction|]. exact IH.
      * exact IH.
Qed.

Lemma drop_singletons_no_singletons (f : frame) :
  no_singletons (ModelA.drop_singletons f).
Proof.
  intros r Hr. unfold ModelA.drop_singletons in *.
  apply filter_In in Hr. destruct Hr as [_ Hge].
  rewrite (count_entity_filter (fun e => 2 <=? count_entity e f)).
  rewrite Hge. now apply Nat.leb_le.
Qed.

Lemma drop_singletons_complete (cols : list string) (f : frame) (r : row) :
  In r (ModelA.drop_singletons (dropna cols f)) -> complete cols r = true.
Proof.
  unfold ModelA.drop_singletons, dropna. intros Hr.
  apply filter_In in Hr. destruct Hr as [Hr _].
  apply filter_In in Hr. tauto.
Qed.

Lemma keep_min_years_sizes (n : nat) (df : frame) (r : row) :
  In r (Hausman.keep_min_years n df) ->
  n <= count_entity (entity r) (Hausman.keep_min_years n df).
Proof.
  unfold Hausman.keep_min_years. intros Hr.
  apply filter_In in Hr. destruct Hr as [_ Hge].
  rewrite (count_entity_filter (fun e => n <=? count_entity e df)).
  rewrite Hge. now apply Nat.leb_le.
Qed.

(** C5, as stated, fails for the Hausman script: of a firm with three
    years, the lag-two design keeps one row, and that design goes to both
    estimators. *)
Lemma hausman_design_keeps_singleton :
  exists d,
    Hausman.fit_input (Hausman.keep_min_years 3 two_firms) plain_labels "ROA" 2
    = Some d
    /\ d_exog d = ["ESG_lag"; "Employees"; "Debt"]
    /\ index_of (d_rows d) = [("A", 2020%Z); ("B", 2020%Z); ("B", 2021%Z)]
    /\ ~ no_singletons (d_rows d).
Proof.
  eexists. split; [vm_compute; reflexivity|].
  split; [reflexivity|]. split; [reflexivity|].
  intros Hns. cbn [d_rows] in Hns.
  match type of Hns with
  | no_singletons (?r :: _) => specialize (Hns r (or_introl eq_refl))
  end.
  vm_compute in Hns. lia.
Qed.

Lemma fit_input_singleton_free (data : frame) (dep : string)
      (ex : list string) (d : design) :
  no_singletons data ->
  (forall r, In r data -> complete (dep :: ex) r = true) ->
  (if (List.length data =? 0) || (ModelA.min_count data <? 2) then None
   else Some (mkDesign dep ex data)) = Some d ->
  d_rows d <> []
  /\ no_singletons (d_rows d)
  /\ (forall r, In r (d_rows d) -> complete (d_dep d :: d_exog d) r = true).
Proof.
  intros Hns Hc Hd.
  destruct (Nat.eqb_spec (List.length data) 0) as [|Hlen]; [discriminate|].
  destruct (ModelA.min_count data <? 2); [discriminate|].
  simpl in Hd. injection Hd as <-. simpl.
  split; [|split; assumption].
  intros ->. now apply Hlen.
Qed.

(** C5, amended.  Every design that [fit_one] of model A or of model B
    hands to the fixed-effects estimator is non-empty, has no missing
    value in its dependent and regressor columns, and holds at least two
    rows of every entity it mentions.  The Hausman script instead keeps,
    before any design is built, the firms with at least three rows. *)
Theorem singletons_dropped_before_fit :
  forall (block : frame) (outcome : string) (lag : nat) (d : design),
    (ModelA.fit_input block outcome lag = Some d
     \/ ModelB.fit_input block outcome lag = Some d) ->
    (d_rows d <> []
     /\ no_singletons (d_rows d)
     /\ (forall r, In r (d_rows d) -> complete (d_dep d :: d_exog d) r = true))
    /\ (forall r, In r (Hausman.keep_min_years 3 block) ->
                  3 <= count_entity (entity r) (Hausman.keep_min_years 3 block)).
Proof.
  intros block outcome lag d Hd.
  split; [|intros r; apply keep_min_years_sizes].
  destruct Hd as [Hd|Hd].
  - unfold ModelA.fit_input in Hd.
    eapply fit_input_singleton_free; [| |exact Hd].
    + apply drop_singletons_no_singletons.
    + intros r. apply drop_singletons_complete.
  - unfold ModelB.fit_input in Hd.
    eapply fit_input_singleton_free; [| |exact Hd].
    + apply drop_singletons_no_singletons.
    + intros r. apply drop_singletons_complete.
Qed.

(** Two complete years of one firm, fitted at lag zero. *)
Lemma singletons_dropped_before_fit_witness :
  ModelA.fit_input two_years "ROA" 0
  = Some (mkDesign "ROA" ModelA.exog two_years)
  /\ no_singletons two_years.
Proof.
  assert (H : ModelA.fit_input two_years "ROA" 0
              = Some (mkDesign "ROA" ModelA.exog
                               two_years))
    by reflexivity.
  split; [exact H|].
  exact (proj1 (proj2 (proj1
           (singletons_dropped_before_fit
              two_years "ROA" 0 (or_introl H))))).
Defined.

(* ================================================================== *)
(** ** The leverage ratio *)

Lemma build_debt_ratio_inf_free (raw : frame) :
  inf_free (ModelA.build_debt_ratio raw).
Proof.
  intros r Hr c. unfold ModelA.build_debt_ratio in Hr.
  apply in_map_iff in Hr. destruct Hr as [r0 [<- _]].
  unfold ModelA.replace_inf. cbn [cell].
  destruct (isinf (cell (set_cell _ _ r0) c)) eqn:Hinf; [reflexivity | exact Hinf].
Qed.

Lemma build_debt_ratio_cell (raw : frame) (r : row) :
  In r (ModelA.build_debt_ratio raw) ->
  exists r0, In r0 raw
             /\ entity r = entity r0 /\ year r = year r0
             /\ cell r "Debt_ratio"
                = if isinf (raw_ratio r0) then NaN else raw_ratio r0.
Proof.
  intros Hr. unfold ModelA.build_debt_ratio in Hr.
  apply in_map_iff in Hr. destruct Hr as [r0 [<- Hin]].
  exists r0. repeat split; try assumption.
Qed.

Lemma zero_assets_not_finite (a : fval) (q : Q) :
  Qeq_bool q 0 = true -> isfinite (fdiv a (Num q)) = false.
Proof.
  intros Hq. destruct a as [x| | |]; simpl; try reflexivity.
  - rewrite Hq. now destruct (Qsign x).
  - now destruct (Qsign q <? 0)%Z.
  - now destruct (Qsign q <? 0)%Z.
Qed.

Section ShiftValues.
Variable V : Type.
Variable na : V.

Lemma group_shift_from_values (col : list (string * V)) :
  forall (h : history V) (L : nat) (v : V),
    In v (group_shift_from na h L col) ->
    v = na \/ In v (map snd col) \/ exists e, In v (h e).
Proof.
  induction col as [|[e0 v0] rest IH]; intros h L v Hin; simpl in *;
    [contradiction|].
  destruct Hin as [Hhead|Htail].
  - destruct L as [|k]; simpl in Hhead.
    + right; left; left. exact Hhead.
    + destruct (nth_in_or_default k (h e0) na) as [Hin|Hd].
      * right; right. exists e0. now rewrite <- Hhead.
      * left. now rewrite <- Hhead.
  - destruct (IH _ _ _ Htail) as [Hna|[Hcol|[e He]]].
    + now left.
    + right; left; right. exact Hcol.
    + unfold push in He. destruct (String.eqb e e0).
      * destruct He as [<-|He]; [right; left; now left|].
        right; right. now exists e.
      * right; right. now exists e.
Qed.
End ShiftValues.

Lemma shift_column_values (c : string) (L : nat) (f : frame) (v : fval) :
  In v (shift_column c L f) -> v = NaN \/ exists r, In r f /\ v = cell r c.
Proof.
  unfold shift_column, group_shift. intros Hin.
  destruct (group_shift_from_values _ _ _ _ _ Hin) as [Hna|[Hcol|[e He]]].
  - now left.
  - right. unfold keyed_column in Hcol. rewrite map_map in Hcol.
    apply in_map_iff in Hcol. destruct Hcol as [r [<- Hr]]. now exists r.
  - contradiction.
Qed.

Lemma assign_column_origin (c : string) (f : frame) :
  forall (vals : list fval) (r : row),
    In r (assign_column c vals f) ->
    exists r0, In r0 f
               /\ entity r = entity r0 /\ year r = year r0
               /\ forall c', cell r c' = cell r0 c'
                             \/ (c' = c /\ In (cell r c') vals).
Proof.
  induction f as [|r1 f IH]; intros vals r Hin; [destruct vals; contradiction|].
  destruct vals as [|v vals]; simpl in Hin.
  - exists r. repeat split; auto.
  - destruct Hin as [<-|Hin].
    + exists r1. split; [now left|]. repeat split.
      intros c'. cbn [set_cell cell].
      destruct (String.eqb_spec c' c) as [->|_]; [right|left]; simpl; auto.
    + destruct (IH _ _ Hin) as [r0 [Hr0 [He [Hy Hc]]]].
      exists r0. split; [now right|]. repeat split; try assumption.
      intros c'. destruct (Hc c') as [Heq|[-> Hv]]; [now left|].
      right. split; [reflexivity | now right].
Qed.

(** Lagging a column puts no infinity into a frame that has none. *)
Lemma lag_inf_free (c : string) (L : nat) (f : frame) :
  inf_free f -> inf_free (assign_column c (shift_column c L f) f).
Proof.
  intros Hf r Hr c'.
  destruct (assign_column_origin _ _ _ _ Hr) as [r0 [Hr0 [_ [_ Hc]]]].
  destruct (Hc c') as [->|[_ Hv]]; [now apply Hf|].
  destruct (shift_column_values _ _ _ _ Hv) as [->|[r1 [Hr1 ->]]];
    [reflexivity | now apply Hf].
Qed.

Lemma lag_keeps_ratio (c : string) (L : nat) (f : frame) (r : row) :
  c <> "Debt_ratio" ->
  In r (assign_column c (shift_column c L f) f) ->
  exists r0, In r0 f /\ entity r = entity r0 /\ year r = year r0
             /\ cell r "Debt_ratio" = cell r0 "Debt_ratio".
Proof.
  intros Hc Hr.
  destruct (assign_column_origin _ _ _ _ Hr) as [r0 [Hr0 [He [Hy Hcell]]]].
  exists r0. repeat split; try assumption.
  destruct (Hcell "Debt_ratio") as [Heq|[Hne _]]; [exact Heq | congruence].
Qed.

Lemma finite_of_complete (cols : list string) (r : row) (c : string) :
  complete cols r = true -> In c cols ->
  isinf (cell r c) = false -> isfinite (cell r c) = true.
Proof.
  unfold complete. rewrite forallb_forall. intros Hall Hc Hinf.
  specialize (Hall c Hc). unfold notna in Hall.
  destruct (cell r c); simpl in *; congruence.
Qed.

Lemma ratio_from_lag (df X : frame) (c : string) (L : nat) :
  c <> "Debt_ratio" -> ratio_from df X ->
  ratio_from df (assign_column c (shift_column c L X) X).
Proof.
  intros Hc HX r Hr.
  destruct (lag_keeps_ratio _ _ _ Hc Hr) as [r1 [Hr1 [He [Hy Hcell]]]].
  destruct (HX r1 Hr1) as [r' [Hr' [He' [Hy' Hcell']]]].
  exists r'. repeat split; try assumption; congruence.
Qed.

Lemma ratio_from_incl (df X : frame) : incl X df -> ratio_from df X.
Proof. intros Hincl r Hr. exists r. auto. Qed.

Lemma inf_free_incl (df X : frame) : incl X df -> inf_free df -> inf_free X.
Proof. intros Hincl Hdf r Hr. apply Hdf, Hincl, Hr. Qed.

Lemma prepared_rows_finite (raw X : frame) (cols : list string) (r : row) :
  inf_free X ->
  ratio_from (ModelA.build_debt_ratio raw) X ->
  In "Debt_ratio" cols ->
  In r (ModelA.drop_singletons (dropna cols X)) ->
  (forall c, In c cols -> isfinite (cell r c) = true)
  /\ exists r0, In r0 raw /\ finite_ratio_of r r0.
Proof.
  intros Hinf Hfrom Hcol Hr.
  assert (Hc : complete cols r = true)
    by (eapply drop_singletons_complete; exact Hr).
  assert (HrX : In r X).
  { unfold ModelA.drop_singletons, dropna in Hr.
    apply filter_In in Hr. destruct Hr as [Hr _].
    apply filter_In in Hr. tauto. }
  assert (Hfin : forall c, In c cols -> isfinite (cell r c) = true).
  { intros c Hin. eapply finite_of_complete; eauto. }
  split; [exact Hfin|].
  destruct (Hfrom r HrX) as [r' [Hr' [He [Hy Hcell]]]].
  destruct (build_debt_ratio_cell _ _ Hr') as [r0 [Hr0 [He0 [Hy0 Hratio]]]].
  exists r0. split; [exact Hr0|].
  specialize (Hfin _ Hcol). rewrite Hcell, Hratio in Hfin.
  unfold finite_ratio_of. rewrite Hcell, Hratio.
  destruct (isinf (raw_ratio r0)); [discriminate|].
  repeat split; congruence.
Qed.

Lemma fit_input_rows (data : frame) (dep : string) (ex : list string)
      (d : design) :
  (if (List.length data =? 0) || (ModelA.min_count data <? 2) then None
   else Some (mkDesign dep ex data)) = Some d ->
  d = mkDesign dep ex data.
Proof.
  destruct ((List.length data =? 0) || (ModelA.min_count data <? 2));
    [discriminate | now intros [= <-]].
Qed.

(** C10.  In models A and B the column Debt_ratio is Debt over Assets
    with both infinities replaced by NaN, so that no cell of the prepared
    frame is infinite; a zero in Assets never gives a finite ratio; and in
    every design handed to the estimator, for whatever subset, outcome
    and lag, all cells of the dependent and regressor columns are finite
    numbers and every row stems from a raw record whose ratio is
    finite. *)
Theorem leverage_never_infinite :
  forall (raw block : frame) (outcome : string) (lag : nat) (d : design),
    (incl block (ModelA.build_debt_ratio raw)
     /\ ModelA.fit_input block outcome lag = Some d)
    \/ (incl block (ModelB.build_debt_ratio raw)
        /\ ModelB.fit_input block outcome lag = Some d) ->
    inf_free (ModelA.build_debt_ratio raw)
    /\ (forall r, In r (ModelB.build_debt_ratio raw) ->
          exists r0, In r0 raw /\ entity r = entity r0 /\ year r = year r0
                     /\ cell r "Debt_ratio"
                        = if isinf (raw_ratio r0) then NaN else raw_ratio r0)
    /\ (forall r0 q, cell r0 "Assets" = Num q -> Qeq_bool q 0 = true ->
                     isfinite (raw_ratio r0) = false)
    /\ (forall r, In r (d_rows d) ->
          (forall c, In c (d_dep d :: d_exog d) -> isfinite (cell r c) = true)
          /\ exists r0, In r0 raw /\ finite_ratio_of r r0).
Proof.
  intros raw block outcome lag d Hd.
  split; [apply build_debt_ratio_inf_free|].
  split; [intros r; apply build_debt_ratio_cell|].
  split.
  { intros r0 q Ha Hq. unfold raw_ratio. rewrite Ha.
    now apply zero_assets_not_finite. }
  assert (Hblock : inf_free block /\ ratio_from (ModelA.build_debt_ratio raw) block).
  { destruct Hd as [[Hincl _]|[Hincl _]];
      (split; [eapply inf_free_incl; [exact Hincl|apply build_debt_ratio_inf_free]
              | apply ratio_from_incl; exact Hincl]). }
  destruct Hblock as [Hinf Hfrom].
  intros r Hr.
  destruct Hd as [[_ Hd]|[_ Hd]].
  - unfold ModelA.fit_input in Hd. apply fit_input_rows in Hd. subst d.
    cbn [d_rows d_dep d_exog] in *. unfold ModelA.prepare in Hr.
    destruct lag as [|k].
    + eapply prepared_rows_finite; eauto; simpl; tauto.
    + eapply prepared_rows_finite; [| | |exact Hr].
      * apply lag_inf_free, Hinf.
      * apply ratio_from_lag; [discriminate | exact Hfrom].
      * simpl; tauto.
  - unfold ModelB.fit_input in Hd. apply fit_input_rows in Hd. subst d.
    cbn [d_rows d_dep d_exog] in *. unfold ModelB.prepare in Hr.
    destruct lag as [|k].
    + eapply prepared_rows_finite; eauto; simpl; tauto.
    + unfold ModelB.lag_pillars in Hr. cbn [fold_left] in Hr.
      eapply prepared_rows_finite; [| | |exact Hr].
      * repeat apply lag_inf_free. exact Hinf.
      * repeat (apply ratio_from_lag; [discriminate|]). exact Hfrom.
      * simpl; tauto.
Qed.

(** Two complete years of one firm: the ratio is 18/18 and 19/19. *)
Lemma leverage_never_infinite_witness :
  ModelA.fit_input (ModelA.build_debt_ratio two_years) "ROA" 0
  = Some (mkDesign "ROA" ModelA.exog (ModelA.build_debt_ratio two_years))
  /\ inf_free (ModelA.build_debt_ratio two_years).
Proof.
  assert (H : ModelA.fit_input (ModelA.build_debt_ratio two_years) "ROA" 0
              = Some (mkDesign "ROA" ModelA.exog
                               (ModelA.build_debt_ratio two_years)))
    by reflexivity.
  split; [exact H|].
  exact (proj1 (leverage_never_infinite
                  two_years "ROA" 0
                  (or_introl (conj (incl_refl _) H)))).
Defined.

(* ================================================================== *)
(** ** Controls summary: insufficient panels *)





(* ================================================================== *)
(** ** Failures inside a batch *)











(* ================================================================== *)
(** ** Hausman comparison *)

Section RationalSums.
Local Open Scope Q_scope.

Lemma Qsum_ext {A : Type} (f g : A -> Q) (l : list A) :
  (forall x, In x l -> f x == g x) ->
  Hausman.Qsum (map f l) == Hausman.Qsum (map g l).
Proof.
  induction l as [|x l IH]; intros Hfg; simpl; [reflexivity|].
  rewrite (Hfg x (or_introl eq_refl)), IH; [reflexivity|].
  intros y Hy. apply Hfg. now right.
Qed.

Lemma Qsum_scale_r {A : Type} (f : A -> Q) (l : list A) (c : Q) :
  Hausman.Qsum (map f l) * c == Hausman.Qsum (map (fun x => f x * c) l).
Proof.
  induction l as [|x l IH]; simpl; [ring|].
  rewrite <- IH. ring.
Qed.

Lemma Qsum_plus {A : Type} (f g : A -> Q) (l : list A) :
  Hausman.Qsum (map (fun x => f x + g x) l)
  == Hausman.Qsum (map f l) + Hausman.Qsum (map g l).
Proof.
  induction l as [|x l IH]; simpl; [ring|].
  rewrite IH. ring.
Qed.

Lemma Qsum_zero {A : Type} (l : list A) :
  Hausman.Qsum (map (fun _ => 0) l) == 0.
Proof.
  induction l as [|x l IH]; simpl; [reflexivity|].
  rewrite IH. ring.
Qed.

(** Two nested finite sums may be taken in either order. *)
Lemma Qsum_swap {A B : Type} (f : A -> B -> Q) (la : list A) (lb : list B) :
  Hausman.Qsum (map (fun i => Hausman.Qsum (map (f i) lb)) la)
  == Hausman.Qsum (map (fun j => Hausman.Qsum (map (fun i => f i j) la)) lb).
Proof.
  induction la as [|a la IH]; simpl.
  - now rewrite Qsum_zero.
  - rewrite IH.
    rewrite <- (Qsum_plus (f a)
                  (fun j => Hausman.Qsum (map (fun i => f i j) la)) lb).
    reflexivity.
Qed.

Lemma dot_as_sum (a : Hausman.vec) :
  forall (b : Hausman.vec) (n : nat),
    List.length a = n -> List.length b = n ->
    Hausman.dot a b
    = Hausman.Qsum (map (fun i => nth i a 0 * nth i b 0) (seq 0 n)).
Proof.
  unfold Hausman.dot.
  induction a as [|x a IH]; intros [|y b] n Ha Hb; simpl in *; subst n;
    try discriminate; [reflexivity|].
  simpl. f_equal.
  rewrite <- seq_shift, map_map.
  apply IH; [reflexivity | now injection Hb].
Qed.

Lemma nth_map_seq {A : Type} (g : nat -> A) (n j : nat) (dflt : A) :
  (j < n)%nat -> nth j (map g (seq 0 n)) dflt = g j.
Proof.
  intros Hj.
  rewrite (nth_indep _ dflt (g 0%nat)) by (rewrite length_map, length_seq; lia).
  rewrite map_nth, seq_nth by lia. reflexivity.
Qed.

Lemma nth_column (W : Hausman.matrix) (i j : nat) :
  (i < List.length W)%nat ->
  nth i (Hausman.column j W) 0 = nth j (nth i W []) 0.
Proof.
  intros Hi. unfold Hausman.column.
  rewrite (nth_indep _ 0 (nth j [] 0)) by (rewrite length_map; lia).
  apply (map_nth (fun r => nth j r 0)).
Qed.

Lemma ncols_square (n : nat) (W : Hausman.matrix) :
  Hausman.square n W -> Hausman.ncols W = n.
Proof.
  unfold Hausman.square, Hausman.ncols. intros [Hlen Hrows].
  destruct W as [|r W]; simpl in *; [exact Hlen|].
  now inversion Hrows.
Qed.

Lemma vecmat_length (n : nat) (d : Hausman.vec) (W : Hausman.matrix) :
  Hausman.square n W -> List.length (Hausman.vecmat d W) = n.
Proof.
  intros Hsq. unfold Hausman.vecmat.
  now rewrite length_map, length_seq, (ncols_square Hsq).
Qed.

(** [d @ W @ d] is the double sum of [d_i * W_ij * d_j]. *)
Lemma quadratic_form_sum (d : Hausman.vec) (W : Hausman.matrix) :
  Hausman.square (List.length d) W ->
  Hausman.dot (Hausman.vecmat d W) d == Hausman.quad_form d W.
Proof.
  intros Hsq. set (n := List.length d) in *.
  rewrite (dot_as_sum (Hausman.vecmat d W) d (n := n))
    by (try reflexivity; now apply vecmat_length).
  unfold Hausman.quad_form. fold n.
  rewrite Qsum_swap.
  apply Qsum_ext. intros j Hj. apply in_seq in Hj.
  unfold Hausman.vecmat. rewrite (ncols_square Hsq).
  rewrite nth_map_seq by lia.
  rewrite (dot_as_sum d (Hausman.column j W) (n := n));
    [|reflexivity|unfold Hausman.column; rewrite length_map; apply Hsq].
  rewrite Qsum_scale_r.
  apply Qsum_ext. intros i Hi. apply in_seq in Hi.
  rewrite nth_column by (destruct Hsq as [-> _]; lia).
  reflexivity.
Qed.

Lemma dot_comm (a : Hausman.vec) :
  forall b, Hausman.dot a b == Hausman.dot b a.
Proof.
  unfold Hausman.dot.
  induction a as [|x a IH]; intros [|y b]; simpl; try reflexivity.
  rewrite IH. ring.
Qed.

Lemma dot_veq (a : Hausman.vec) (b b' : Hausman.vec) :
  Hausman.veq b b' -> Hausman.dot a b == Hausman.dot a b'.
Proof.
  unfold Hausman.veq, Hausman.dot. intros Hb. revert a.
  induction Hb as [|y y' b b' Hy Hb IH]; intros [|x a]; simpl;
    try reflexivity.
  rewrite Hy, IH. reflexivity.
Qed.

Lemma Qlt_bool_spec (a b : Q) :
  Hausman.Qlt_bool a b = true <-> a < b.
Proof.
  unfold Hausman.Qlt_bool. rewrite negb_true_iff.
  split.
  - intros Hle. apply Qnot_le_lt. intros Hba.
    apply Qle_bool_iff in Hba. congruence.
  - intros Hlt. destruct (Qle_bool b a) eqn:Hle; [|reflexivity].
    apply Qle_bool_iff in Hle. exfalso. now apply (Qlt_not_le a b).
Qed.
End RationalSums.

Lemma take_labels_ok (s : list (string * Q)) (keep_idx : list string) :
  Hausman.has_labels s keep_idx ->
  Hausman.take_labels s keep_idx
  = Ok (map (fun k => match assoc k s with Some q => q | None => 0%Q end)
            keep_idx).
Proof.
  unfold Hausman.has_labels, Hausman.take_labels.
  induction 1 as [|k ks Hk _ IH]; simpl; [reflexivity|].
  unfold getitem at 1. destruct (assoc k s); [|contradiction].
  simpl. now rewrite IH.
Qed.

Lemma take_block_ok (c : list (string * list (string * Q)))
      (keep_idx : list string) :
  forall rows_idx : list string,
    Forall (fun i => exists r, assoc i c = Some r
                               /\ Hausman.has_labels r keep_idx) rows_idx ->
    for_each (fun i => r <- getitem c i ;; Hausman.take_labels r keep_idx)
             rows_idx
    = Ok (map (fun i =>
                 map (fun j =>
                        match assoc i c with
                        | Some r => match assoc j r with
                                    | Some q => q
                                    | None => 0%Q
                                    end
                        | None => 0%Q
                        end) keep_idx) rows_idx).
Proof.
  induction 1 as [|i rest [r [Hr Hlab]] _ IH]; simpl; [reflexivity|].
  unfold getitem at 1. rewrite Hr. simpl.
  rewrite (take_labels_ok Hlab). simpl. now rewrite IH.
Qed.

Lemma vsub_map {A : Type} (f g : A -> Q) (l : list A) :
  Hausman.vsub (map f l) (map g l) = map (fun k => (f k - g k)%Q) l.
Proof.
  unfold Hausman.vsub. induction l as [|x l IH]; simpl; [reflexivity|].
  now rewrite IH.
Qed.

Lemma msub_map {A B : Type} (f g : A -> B -> Q) (la : list A) (lb : list B) :
  Hausman.msub (map (fun i => map (f i) lb) la) (map (fun i => map (g i) lb) la)
  = map (fun i => map (fun j => (f i j - g i j)%Q) lb) la.
Proof.
  unfold Hausman.msub. induction la as [|x la IH]; simpl; [reflexivity|].
  now rewrite IH, vsub_map.
Qed.

Lemma spec_V_square (fe_res re_res : fit_result) (keep_idx : list string) :
  Hausman.square (List.length keep_idx)
                 (Hausman.spec_V fe_res re_res keep_idx).
Proof.
  unfold Hausman.square, Hausman.spec_V. split; [apply length_map|].
  apply Forall_forall. intros r Hr.
  apply in_map_iff in Hr. destruct Hr as [i [<- _]]. apply length_map.
Qed.

(** On fits that expose the shared regressors, [hausman_stat] raises
    nothing and computes from the specified difference vector and
    difference of covariances. *)
Lemma hausman_stat_value (N : Hausman.Numerics) (fe_res re_res : fit_result)
      (keep_idx : list string) :
  Hausman.shares fe_res keep_idx -> Hausman.shares re_res keep_idx ->
  let d := Hausman.spec_d fe_res re_res keep_idx in
  let W := fst (Hausman.inverse_or_pinv
                  (Hausman.spec_V fe_res re_res keep_idx)) in
  let stat := Hausman.dot (Hausman.vecmat d W) d in
  Hausman.hausman_stat fe_res re_res keep_idx
  = Ok (stat, List.length keep_idx,
        (1 - Hausman.chi2_cdf stat (List.length keep_idx))%Q).
Proof.
  intros [Hpf Hcf] [Hpr Hcr]. unfold Hausman.hausman_stat.
  rewrite (take_labels_ok Hpf), (take_labels_ok Hpr). simpl bind.
  unfold Hausman.take_block.
  rewrite (@take_block_ok (cov fe_res) keep_idx keep_idx Hcf),
    (@take_block_ok (cov re_res) keep_idx keep_idx Hcr). simpl bind.
  rewrite vsub_map, msub_map. reflexivity.
Qed.

Lemma decide_spec (pval : Q) :
  ((pval < 5 # 100)%Q -> Hausman.decide pval = "FE")
  /\ ((5 # 100 <= pval)%Q -> Hausman.decide pval = "RE").
Proof.
  unfold Hausman.decide. split; intros Hp.
  - apply Qlt_bool_spec in Hp. now rewrite Hp.
  - destruct (Hausman.Qlt_bool pval (5 # 100)) eqn:Hb; [|reflexivity].
    apply Qlt_bool_spec in Hb. exfalso. now apply (Qlt_not_le _ _ Hb).
Qed.

Lemma block_row_na (Est : Estimator) (N : Hausman.Numerics) (panel : frame)
      (L : Hausman.labels) (sample_label : string) (oy : string * string)
      (lag : nat) :
  let bd := Hausman.build_design panel (snd oy) (Hausman.esg L)
                                 (Hausman.emp L) (Hausman.debt L) lag in
  List.length (d_rows bd) = 0 \/ List.length (d_exog bd) = 0 ->
  Hausman.block_row panel L sample_label oy lag
  = Ok (Hausman.na_row sample_label (fst oy) lag).
Proof.
  intros bd Hz. unfold Hausman.block_row, Hausman.fit_input. fold bd.
  destruct Hz as [-> | ->]; [reflexivity|].
  now rewrite orb_true_r.
Qed.

Lemma block_row_fitted (Est : Estimator) (N : Hausman.Numerics) (panel : frame)
      (L : Hausman.labels) (sample_label : string) (oy : string * string)
      (lag : nat) (fe_res re_res : fit_result) :
  let bd := Hausman.build_design panel (snd oy) (Hausman.esg L)
                                 (Hausman.emp L) (Hausman.debt L) lag in
  List.length (d_rows bd) <> 0 -> List.length (d_exog bd) <> 0 ->
  PanelOLS_fit true Unadjusted bd = Ok fe_res ->
  RandomEffects_fit Unadjusted bd = Ok re_res ->
  Hausman.block_row panel L sample_label oy lag
  = Hausman.compare fe_res re_res (d_exog bd) sample_label (fst oy) lag.
Proof.
  intros bd Hr Hx Hfe Hre. unfold Hausman.block_row, Hausman.fit_input.
  fold bd.
  destruct (Nat.eqb_spec (List.length (d_rows bd)) 0); [contradiction|].
  destruct (Nat.eqb_spec (List.length (d_exog bd)) 0); [contradiction|].
  simpl. rewrite Hfe. simpl. rewrite Hre. reflexivity.
Qed.

(** C1.  For fixed- and random-effects fits that both expose the ordered
    regressors [keep_idx], and an inverse routine that keeps the shape of
    its argument, [hausman_stat] returns the statistic [d W d] as the
    double sum of [d_i W_ij d_j], where [d] is the difference of the
    coefficients, [V] the difference of the covariances over [keep_idx]
    and [W] the inverse of [V] returned by [inv] (the pseudo-inverse where
    [inv] raises); the degrees of freedom are the number of regressors;
    the p-value is one minus the chi-square distribution function at the
    statistic; the row decides "FE" when the p-value is below 0.05 and
    "RE" otherwise.  A design with no row or no regressor column gives
    the row "NA" with NaN statistic and p-value and zero degrees of
    freedom, whatever the estimators are; any other design is fitted by
    both estimators and compared over its regressor columns. *)
Theorem hausman_comparison :
  forall (Est : Estimator) (N : Hausman.Numerics)
         (fe_res re_res : fit_result) (keep_idx : list string)
         (sample_label out_name : string) (lag : nat),
    Hausman.shares fe_res keep_idx ->
    Hausman.shares re_res keep_idx ->
    Hausman.keeps_shape N ->
    let d := Hausman.spec_d fe_res re_res keep_idx in
    let V := Hausman.spec_V fe_res re_res keep_idx in
    let W := fst (Hausman.inverse_or_pinv V) in
    let stat := Hausman.dot (Hausman.vecmat d W) d in
    let pval := (1 - Hausman.chi2_cdf stat (List.length keep_idx))%Q in
    Hausman.hausman_stat fe_res re_res keep_idx
    = Ok (stat, List.length keep_idx, pval)
    /\ (stat == Hausman.quad_form d W)%Q
    /\ (forall W', Hausman.inv V = Some W' -> W = W')
    /\ Hausman.compare fe_res re_res keep_idx sample_label out_name lag
       = Ok (Hausman.mkOut sample_label out_name lag
                           (Num (Hausman.round4 stat)) (List.length keep_idx)
                           (Num (Hausman.sig6 pval)) (Hausman.decide pval))
    /\ ((pval < 5 # 100)%Q -> Hausman.decide pval = "FE")
    /\ ((5 # 100 <= pval)%Q -> Hausman.decide pval = "RE")
    /\ (forall panel L oy,
          let bd := Hausman.build_design panel (snd oy) (Hausman.esg L)
                                         (Hausman.emp L) (Hausman.debt L) lag in
          (List.length (d_rows bd) = 0 \/ List.length (d_exog bd) = 0 ->
           Hausman.block_row panel L sample_label oy lag
           = Ok (Hausman.mkOut sample_label (fst oy) lag NaN 0 NaN "NA"))
          /\ (List.length (d_rows bd) <> 0 -> List.length (d_exog bd) <> 0 ->
              PanelOLS_fit true Unadjusted bd = Ok fe_res ->
              RandomEffects_fit Unadjusted bd = Ok re_res ->
              Hausman.block_row panel L sample_label oy lag
              = Hausman.compare fe_res re_res (d_exog bd)
                                sample_label (fst oy) lag)).
Proof.
  intros Est N fe_res re_res keep_idx sample_label out_name lag
         Hfe Hre Hshape d V W stat pval.
  assert (Hstat : Hausman.hausman_stat fe_res re_res keep_idx
                  = Ok (stat, List.length keep_idx, pval))
    by (apply hausman_stat_value; assumption).
  split; [exact Hstat|].
  split.
  { apply quadratic_form_sum. unfold d, Hausman.spec_d. rewrite length_map.
    apply Hshape, spec_V_square. }
  split.
  { intros W' HW'. unfold W, Hausman.inverse_or_pinv. now rewrite HW'. }
  split.
  { unfold Hausman.compare. rewrite Hstat. reflexivity. }
  split; [apply decide_spec|]. split; [apply decide_spec|].
  intros panel L oy bd. split.
  - apply block_row_na.
  - apply block_row_fitted.
Qed.

Lemma scalar_keeps_shape : Hausman.keeps_shape Hausman.scalar_numerics.
Proof.
  intros n V Hsq. unfold Hausman.inverse_or_pinv. simpl.
  destruct V as [|[|a [|b r]] [|r2 V']]; simpl; try exact Hsq.
  destruct Hsq as [Hn _].
  destruct (Qeq_bool a 0); simpl; (split; [exact Hn|]);
    repeat constructor; simpl; exact Hn.
Qed.

Lemma one_fit_shares (b v : Q) : Hausman.shares (Hausman.one_fit b v) ["x"].
Proof.
  split.
  - repeat constructor. discriminate.
  - repeat constructor. eexists. split; [reflexivity|].
    repeat constructor. discriminate.
Qed.

(** Coefficients 3 and 1, covariances 2 and 1: the statistic is 4. *)
Lemma hausman_comparison_witness :
  Hausman.shares fe_demo ["x"]
  /\ Hausman.shares re_demo ["x"]
  /\ Hausman.keeps_shape Hausman.scalar_numerics
  /\ @Hausman.hausman_stat Hausman.scalar_numerics fe_demo re_demo ["x"]
     = Ok ((4 # 1)%Q, 1, (1 # 5)%Q).
Proof.
  split; [apply one_fit_shares|]. split; [apply one_fit_shares|].
  split; [exact scalar_keeps_shape|].
  exact (proj1 (hausman_comparison absorbing "full" "ROA" 0
                  (one_fit_shares 3 2) (one_fit_shares 1 1)
                  scalar_keeps_shape)).
Defined.

(** C7, as stated, fails.  With a single regressor, coefficients 1 and 0
    and covariances 1 and 2, the statistic is -1.  And no function of the
    result row tells whether the pseudo-inverse was used: equal
    coefficients with covariances (1, 1), where [inv] raises, and with
    covariances (2, 1), where it does not, give the same row. *)
Lemma hausman_negative_and_unflagged :
  @Hausman.hausman_stat Hausman.scalar_numerics
     (Hausman.one_fit 1 1) (Hausman.one_fit 0 2) ["x"]
  = Ok ((-1 # 1)%Q, 1, (1 # 1)%Q)
  /\ ~ Hausman.fallback_flagged Hausman.scalar_numerics.
Proof.
  split; [reflexivity|].
  intros [flag Hflag].
  pose proof (Hflag (Hausman.one_fit 0 1) (Hausman.one_fit 0 1) ["x"]
                    "full" "ROA" 0 _ eq_refl) as Hsingular.
  pose proof (Hflag (Hausman.one_fit 0 2) (Hausman.one_fit 0 1) ["x"]
                    "full" "ROA" 0 _ eq_refl) as Hregular.
  vm_compute in Hsingular, Hregular. congruence.
Qed.

Lemma veq_sym (a b : Hausman.vec) : Hausman.veq a b -> Hausman.veq b a.
Proof.
  unfold Hausman.veq. induction 1; constructor; [now symmetry | assumption].
Qed.

(** The statistic is the quadratic form of [V] at [u = d W] once [W]
    undoes [V] at [d]. *)
Lemma statistic_nonneg (n : nat) (d : Hausman.vec) (V W : Hausman.matrix) :
  Hausman.square n W ->
  Hausman.psd n V ->
  Hausman.veq (Hausman.vecmat (Hausman.vecmat d W) V) d ->
  (0 <= Hausman.dot (Hausman.vecmat d W) d)%Q.
Proof.
  intros Hsq Hpsd Hinv.
  rewrite (dot_veq (Hausman.vecmat d W) (veq_sym Hinv)).
  rewrite dot_comm.
  apply Hpsd. now apply vecmat_length.
Qed.

(** C7, amended.  For fits that expose the shared regressors the
    statistic is non-negative whenever the covariance difference [V] is
    positive semi-definite and the matrix [W] used as its inverse undoes
    [V] at the difference vector.  Where [inv] raises, the pseudo-inverse
    takes its place and the statistic, degrees of freedom, p-value and
    decision are reported in the same row as otherwise; the row has no
    field that records the fallback. *)
Theorem hausman_statistic_sign :
  forall (N : Hausman.Numerics) (fe_res re_res : fit_result)
         (keep_idx : list string) (sample_label out_name : string) (lag : nat),
    Hausman.shares fe_res keep_idx ->
    Hausman.shares re_res keep_idx ->
    Hausman.keeps_shape N ->
    let d := Hausman.spec_d fe_res re_res keep_idx in
    let V := Hausman.spec_V fe_res re_res keep_idx in
    let W := fst (Hausman.inverse_or_pinv V) in
    let stat := Hausman.dot (Hausman.vecmat d W) d in
    let pval := (1 - Hausman.chi2_cdf stat (List.length keep_idx))%Q in
    (Hausman.psd (List.length keep_idx) V ->
     Hausman.veq (Hausman.vecmat (Hausman.vecmat d W) V) d ->
     (0 <= stat)%Q)
    /\ (Hausman.inv V = None -> W = Hausman.pinv V)
    /\ Hausman.compare fe_res re_res keep_idx sample_label out_name lag
       = Ok (Hausman.mkOut sample_label out_name lag
                           (Num (Hausman.round4 stat)) (List.length keep_idx)
                           (Num (Hausman.sig6 pval)) (Hausman.decide pval)).
Proof.
  intros N fe_res re_res keep_idx sample_label out_name lag
         Hfe Hre Hshape d V W stat pval.
  split.
  { intros Hpsd Hinv.
    apply (@statistic_nonneg (List.length keep_idx) d V W); try assumption.
    apply Hshape, spec_V_square. }
  split.
  { intros Hnone. unfold W, Hausman.inverse_or_pinv. now rewrite Hnone. }
  unfold Hausman.compare.
  rewrite (hausman_stat_value N Hfe Hre). reflexivity.
Qed.

Lemma unit_matrix_psd : Hausman.psd 1 [[(2 - 1)%Q]].
Proof.
  intros [|a [|b u]] Hu; try discriminate.
  unfold Hausman.vecmat, Hausman.dot, Hausman.column, Hausman.ncols. simpl.
  assert (Hsq : ((a * (2 - 1) + 0) * a + 0 == a * a)%Q) by ring.
  rewrite Hsq. unfold Qle, Qmult. simpl. rewrite Z.mul_1_r.
  apply Z.square_nonneg.
Qed.

(** Coefficients 3 and 1, covariances 2 and 1: [V] is the unit matrix
    and the statistic 4. *)
Lemma hausman_statistic_sign_witness :
  Hausman.shares fe_demo ["x"]
  /\ Hausman.shares re_demo ["x"]
  /\ Hausman.keeps_shape Hausman.scalar_numerics
  /\ Hausman.psd 1 (Hausman.spec_V fe_demo re_demo ["x"])
  /\ (0 <= 4 # 1)%Q.
Proof.
  split; [apply one_fit_shares|]. split; [apply one_fit_shares|].
  split; [exact scalar_keeps_shape|].
  split; [exact unit_matrix_psd|].
  refine (proj1 (hausman_statistic_sign "full" "ROA" 0
                   (one_fit_shares 3 2) (one_fit_shares 1 1)
                   scalar_keeps_shape) unit_matrix_psd _).
  repeat constructor.
Defined.

(* ================================================================== *)
(** * Further properties *)

(** ** Dictionaries *)

Section DictFacts.
Variable A : Type.

Lemma assoc_dict_set (k k' : string) (v : A) (d : list (string * A)) :
  assoc k (dict_set k' v d)
  = if String.eqb k' k then Some v else assoc k d.
Proof.
  induction d as [|[k1 v1] d IH]; simpl.
  - reflexivity.
  - destruct (String.eqb_spec k1 k') as [->|Hne]; simpl.
    + destruct (String.eqb k' k); reflexivity.
    + destruct (String.eqb_spec k1 k) as [->|Hk].
      * destruct (String.eqb_spec k' k); [congruence | reflexivity].
      * exact IH.
Qed.

Lemma assoc_In (k : string) (v : A) (d : list (string * A)) :
  assoc k d = Some v -> In (k, v) d.
Proof.
  induction d as [|[k1 v1] d IH]; simpl; [discriminate|].
  destruct (String.eqb_spec k1 k) as [->|_].
  - intros [= ->]. now left.
  - intros H. right. now apply IH.
Qed.

Lemma in_dict_set (k0 k : string) (v0 v : A) (d : list (string * A)) :
  In (k0, v0) (dict_set k v d) -> (k0 = k /\ v0 = v) \/ In (k0, v0) d.
Proof.
  induction d as [|[k1 v1] d IH]; simpl.
  - intros [[= <- <-]|[]]. now left.
  - destruct (String.eqb_spec k1 k) as [->|Hne]; simpl.
    + intros [[= <- <-]|Hin]; [now left | right; now right].
    + intros [Heq|Hin]; [right; now left|].
      destruct (IH Hin) as [Hl|Hr]; [now left | right; now right].
Qed.

(** Every item of a comprehension's dict is one of the items it was
    built from. *)
Lemma in_fold_dict_set (items : list (string * A)) :
  forall (d : list (string * A)) (k : string) (v : A),
    In (k, v) (fold_left (fun d kv => dict_set (fst kv) (snd kv) d) items d) ->
    In (k, v) items \/ In (k, v) d.
Proof.
  induction items as [|[k1 v1] items IH]; intros d k v Hin; simpl in *.
  - now right.
  - destruct (IH _ _ _ Hin) as [Hl|Hr]; [left; now right|].
    destruct (in_dict_set _ _ _ _ _ Hr) as [[-> ->]|Hd];
      [left; now left | now right].
Qed.

Lemma in_dict_of (items : list (string * A)) (k : string) (v : A) :
  In (k, v) (dict_of items) -> In (k, v) items.
Proof.
  intros Hin. destruct (in_fold_dict_set _ _ _ _ Hin) as [H|[]]. exact H.
Qed.

(** Every key among the items is a key of the dict. *)
Lemma key_fold_dict_set (items : list (string * A)) :
  forall (d : list (string * A)) (k : string),
    (exists v, In (k, v) items) \/ assoc k d <> None ->
    assoc k (fold_left (fun d kv => dict_set (fst kv) (snd kv) d) items d)
    <> None.
Proof.
  induction items as [|[k1 v1] items IH]; intros d k Hk; simpl in *.
  - destruct Hk as [[v []]|H]. exact H.
  - apply IH. destruct Hk as [[v [[= -> ->]|Hin]]|Hd].
    + right. rewrite assoc_dict_set, String.eqb_refl. discriminate.
    + left. now exists v.
    + right. rewrite assoc_dict_set.
      destruct (String.eqb k1 k); [discriminate | exact Hd].
Qed.

Lemma key_dict_of (items : list (string * A)) (k : string) (v : A) :
  In (k, v) items -> assoc k (dict_of items) <> None.
Proof.
  intros Hin. apply key_fold_dict_set. left. now exists v.
Qed.

End DictFacts.

Lemma first_some_found {A B : Type} (f : A -> option B) (l : list A) (b : B) :
  first_some f l = Some b -> exists a, In a l /\ f a = Some b.
Proof.
  induction l as [|a l IH]; simpl; [discriminate|].
  destruct (f a) as [b'|] eqn:Hfa.
  - intros [= <-]. exists a. split; [now left | exact Hfa].
  - intros H. destruct (IH H) as [a' [Hin Ha']].
    exists a'. split; [now right | exact Ha'].
Qed.

Lemma first_some_none {A B : Type} (f : A -> option B) (l : list A) :
  first_some f l = None <-> forall a, In a l -> f a = None.
Proof.
  induction l as [|a l IH]; simpl.
  - split; [intros _ a [] | reflexivity].
  - destruct (f a) as [b|] eqn:Hfa.
    + split; [discriminate|].
      intros H. specialize (H a (or_introl eq_refl)). congruence.
    + rewrite IH. split.
      * intros H a' [<-|Hin]; [exact Hfa | now apply H].
      * intros H a' Hin. apply H. now right.
Qed.

Lemma prefix_refl (s : string) : String.prefix s s = true.
Proof.
  induction s as [|a s IH]; simpl; [reflexivity|].
  destruct (ascii_dec a a); [exact IH | contradiction].
Qed.

Lemma contains_refl (s : string) : contains s s = true.
Proof.
  destruct s; unfold contains; fold contains; now rewrite prefix_refl.
Qed.

(* ================================================================== *)
(** ** Column resolution of the Hausman script *)

Lemma in_cols_of (columns : list string) (k c : string) :
  In (k, c) (Columns.cols_of columns) -> In c columns /\ k = lower c.
Proof.
  intros Hin. apply in_dict_of, in_map_iff in Hin.
  destruct Hin as [c' [[= <- <-] Hc]]. now split.
Qed.

Lemma key_cols_of (columns : list string) (c : string) :
  In c columns -> assoc (lower c) (Columns.cols_of columns) <> None.
Proof.
  intros Hc. apply key_dict_of with (v := c).
  apply in_map_iff. now exists c.
Qed.

Lemma in_norm_of (cols : list (string * string)) (k2 c : string) :
  In (k2, c) (Columns.norm_of cols) ->
  exists k, In (k, c) cols /\ k2 = Columns.letters k.
Proof.
  intros Hin. apply in_dict_of, in_map_iff in Hin.
  destruct Hin as [[k c'] [[= <- <-] Hkc]]. now exists k.
Qed.

Lemma key_norm_of (cols : list (string * string)) (k c : string) :
  In (k, c) cols -> assoc (Columns.letters k) (Columns.norm_of cols) <> None.
Proof.
  intros Hin. apply key_dict_of with (v := c).
  apply in_map_iff. now exists (k, c).
Qed.

Lemma exact_pass_sound (columns names : list string) (c : string) :
  Columns.exact_pass (Columns.cols_of columns) names = Some c ->
  In c columns /\ exists n, In n names /\ same_up_to_case c n.
Proof.
  intros H. apply first_some_found in H. destruct H as [n [Hn Ha]].
  apply assoc_In, in_cols_of in Ha. destruct Ha as [Hc Hl].
  split; [exact Hc|]. exists n. split; [exact Hn | now symmetry].
Qed.

Lemma letters_pass_sound (columns names : list string) (c : string) :
  Columns.letters_pass (Columns.cols_of columns) names = Some c ->
  In c columns /\ exists n, In n names /\ same_letters c n.
Proof.
  intros H. apply first_some_found in H. destruct H as [n [Hn Ha]].
  apply assoc_In, in_norm_of in Ha. destruct Ha as [k [Hk Hl]].
  apply in_cols_of in Hk. destruct Hk as [Hc ->].
  split; [exact Hc|]. exists n. split; [exact Hn | now symmetry].
Qed.

Lemma substring_pass_sound (columns names : list string) (c : string) :
  Columns.substring_pass (Columns.cols_of columns) names = Some c ->
  In c columns /\ exists n, In n names /\ mentions c n.
Proof.
  intros H. apply first_some_found in H. destruct H as [[k v] [Hkv Hin]].
  apply first_some_found in Hin. destruct Hin as [n [Hn Hc]].
  simpl in Hc. destruct (contains (lower n) k) eqn:Hcont; [|discriminate].
  injection Hc as <-.
  apply in_cols_of in Hkv. destruct Hkv as [Hv ->].
  split; [exact Hv|]. now exists n.
Qed.

(** X1.  A column returned by [pick] is a column of the table and
    answers to one of the aliases: it equals the alias up to case, or up
    to case and non-letters, or contains the alias up to case. *)
Theorem pick_returns_matching_column :
  forall (columns names : list string) (c : string),
    Columns.pick columns names = Ok c ->
    In c columns
    /\ exists n, In n names
                 /\ (same_up_to_case c n \/ same_letters c n \/ mentions c n).
Proof.
  intros columns names c. unfold Columns.pick.
  destruct (Columns.exact_pass _ names) as [c1|] eqn:H1.
  { intros [= <-]. destruct (exact_pass_sound _ _ H1) as [Hc [n [Hn Hm]]].
    split; [exact Hc|]. exists n. auto. }
  destruct (Columns.letters_pass _ names) as [c2|] eqn:H2.
  { intros [= <-]. destruct (letters_pass_sound _ _ H2) as [Hc [n [Hn Hm]]].
    split; [exact Hc|]. exists n. auto. }
  destruct (Columns.substring_pass _ names) as [c3|] eqn:H3; [|discriminate].
  intros [= <-]. destruct (substring_pass_sound _ _ H3) as [Hc [n [Hn Hm]]].
  split; [exact Hc|]. exists n. auto.
Qed.

(** The aliases of the year column against a table that spells it in
    capitals. *)
Lemma pick_returns_matching_column_witness :
  Columns.pick ["Company"; "YEAR"; "ROA"] Columns.year_names = Ok "YEAR"
  /\ In "YEAR" ["Company"; "YEAR"; "ROA"].
Proof.
  assert (H : Columns.pick ["Company"; "YEAR"; "ROA"] Columns.year_names
              = Ok "YEAR") by reflexivity.
  split; [exact H|].
  exact (proj1 (pick_returns_matching_column _ _ H)).
Defined.

(** X2.  [pick] raises, and then [KeyError], exactly when no column of
    the table has the letters of an alias or contains an alias, up to
    case. *)
Theorem pick_raises_iff_no_match :
  forall (columns names : list string),
    (forall e, Columns.pick columns names = Raise e -> e = KeyError)
    /\ (Columns.pick columns names = Raise KeyError
        <-> forall c n, In c columns -> In n names ->
                        ~ same_letters c n /\ ~ mentions c n).
Proof.
  intros columns names. unfold Columns.pick.
  set (cols := Columns.cols_of columns).
  split.
  { intros e.
    destruct (Columns.exact_pass cols names); [discriminate|].
    destruct (Columns.letters_pass cols names); [discriminate|].
    destruct (Columns.substring_pass cols names); [discriminate|].
    now intros [= <-]. }
  split.
  - intros Hraise c n Hc Hn.
    destruct (Columns.exact_pass cols names); [discriminate|].
    destruct (Columns.letters_pass cols names) eqn:H2; [discriminate|].
    destruct (Columns.substring_pass cols names) eqn:H3; [discriminate|].
    destruct (assoc (lower c) cols) as [v|] eqn:Hkey;
      [|now apply key_cols_of in Hc].
    apply assoc_In in Hkey. split.
    + intros Hsame. unfold same_letters in Hsame.
      unfold Columns.letters_pass in H2.
      rewrite first_some_none in H2. specialize (H2 n Hn).
      apply (key_norm_of _ _ _ Hkey). now rewrite Hsame.
    + intros Hm. unfold mentions in Hm.
      unfold Columns.substring_pass in H3.
      rewrite first_some_none in H3. specialize (H3 _ Hkey).
      rewrite first_some_none in H3. specialize (H3 n Hn).
      simpl in H3. now rewrite Hm in H3.
  - intros Hnone.
    destruct (Columns.exact_pass cols names) as [c1|] eqn:H1.
    { destruct (exact_pass_sound _ _ H1) as [Hc [n [Hn Hm]]].
      destruct (Hnone c1 n Hc Hn) as [_ Hno]. exfalso. apply Hno.
      unfold mentions. rewrite Hm. apply contains_refl. }
    destruct (Columns.letters_pass cols names) as [c2|] eqn:H2.
    { destruct (letters_pass_sound _ _ H2) as [Hc [n [Hn Hm]]].
      destruct (Hnone c2 n Hc Hn) as [Hno _]. contradiction. }
    destruct (Columns.substring_pass cols names) as [c3|] eqn:H3;
      [|reflexivity].
    destruct (substring_pass_sound _ _ H3) as [Hc [n [Hn Hm]]].
    destruct (Hnone c3 n Hc Hn) as [_ Hno]. contradiction.
Qed.

(* ================================================================== *)
(** ** Column detection of the VIF script *)

Lemma lower_ascii_kept (a : ascii) :
  is_lower_letter a || is_digit a = true -> lower_ascii a = a.
Proof.
  unfold is_lower_letter, is_digit, lower_ascii. cbv zeta.
  intros H.
  destruct ((65 <=? nat_of_ascii a) && (nat_of_ascii a <=? 90)) eqn:Hup;
    [|reflexivity].
  exfalso.
  apply andb_true_iff in Hup. destruct Hup as [H1 H2].
  apply Nat.leb_le in H1, H2.
  apply orb_true_iff in H. destruct H as [H|H];
    apply andb_true_iff in H; destruct H as [H3 H4];
    apply Nat.leb_le in H3, H4; lia.
Qed.

Lemma lower_keep_chars (s : string) :
  lower (keep_chars (fun a => is_lower_letter a || is_digit a) s)
  = keep_chars (fun a => is_lower_letter a || is_digit a) s.
Proof.
  induction s as [|a s IH]; simpl; [reflexivity|].
  destruct (is_lower_letter a || is_digit a) eqn:Hk; [|exact IH].
  simpl. now rewrite IH, lower_ascii_kept.
Qed.

Lemma keep_chars_idem (keep : ascii -> bool) (s : string) :
  keep_chars keep (keep_chars keep s) = keep_chars keep s.
Proof.
  induction s as [|a s IH]; simpl; [reflexivity|].
  destruct (keep a) eqn:Hk; [|exact IH].
  simpl. now rewrite Hk, IH.
Qed.

Lemma lower_ascii_idem (a : ascii) : lower_ascii (lower_ascii a) = lower_ascii a.
Proof.
  destruct a as [[] [] [] [] [] [] [] []]; reflexivity.
Qed.

Lemma lower_idem (s : string) : lower (lower s) = lower s.
Proof.
  induction s as [|a s IH]; simpl; [reflexivity|].
  now rewrite lower_ascii_idem, IH.
Qed.

Lemma in_norm_map (columns : list string) (k c : string) :
  In (k, c) (Vif.norm_map columns) -> In c columns /\ k = Vif._norm c.
Proof.
  intros Hin. apply in_dict_of, in_map_iff in Hin.
  destruct Hin as [c' [[= <- <-] Hc]]. now split.
Qed.

(** X4.  [_norm] is a normal form: normalising twice, or normalising the
    lower-cased name, changes nothing.  [find_col] returns a column of
    the table whose normal form is that of a candidate, and it raises,
    then [KeyError], exactly when no column has the normal form of any
    candidate. *)
Theorem find_col_by_normal_form :
  forall (columns candidates : list string),
    (forall s, Vif._norm (Vif._norm s) = Vif._norm s)
    /\ (forall s, Vif._norm (lower s) = Vif._norm s)
    /\ (forall col, Vif.find_col columns candidates = Ok col ->
          In col columns
          /\ exists c, In c candidates /\ Vif._norm col = Vif._norm c)
    /\ (forall e, Vif.find_col columns candidates = Raise e -> e = KeyError)
    /\ (Vif.find_col columns candidates = Raise KeyError
        <-> forall col c, In col columns -> In c candidates ->
                          Vif._norm col <> Vif._norm c).
Proof.
  intros columns candidates.
  split.
  { intros s. unfold Vif._norm. now rewrite lower_keep_chars, keep_chars_idem. }
  split.
  { intros s. unfold Vif._norm. now rewrite lower_idem. }
  unfold Vif.find_col.
  destruct (first_some _ candidates) as [found|] eqn:Hf.
  - apply first_some_found in Hf. destruct Hf as [c [Hc Ha]].
    apply assoc_In, in_norm_map in Ha. destruct Ha as [Hcol Hn].
    split.
    { intros col [= <-]. split; [exact Hcol|]. exists c. now split. }
    split; [discriminate|].
    split; [discriminate|].
    intros Hnone. exfalso. apply (Hnone found c Hcol Hc). now symmetry.
  - split; [discriminate|].
    split; [now intros e [= <-]|].
    split; [|reflexivity].
    intros _ col c Hcol Hc Heq.
    rewrite first_some_none in Hf. specialize (Hf c Hc). simpl in Hf.
    apply (key_dict_of (map (fun c => (Vif._norm c, c)) columns)
                       (Vif._norm col) col).
    + apply in_map_iff. now exists col.
    + rewrite Heq. exact Hf.
Qed.

(** The candidates of the debt column against a table that spells it
    with a space. *)
Lemma find_col_by_normal_form_witness :
  Vif.find_col ["Year"; "Total Debt"] ["Debt"; "TotalDebt"; "Leverage"]
  = Ok "Total Debt"
  /\ In "Total Debt" ["Year"; "Total Debt"].
Proof.
  assert (H : Vif.find_col ["Year"; "Total Debt"]
                           ["Debt"; "TotalDebt"; "Leverage"]
              = Ok "Total Debt") by reflexivity.
  split; [exact H|].
  exact (proj1 (proj1 (proj2 (proj2
           (find_col_by_normal_form ["Year"; "Total Debt"]
                                    ["Debt"; "TotalDebt"; "Leverage"])))
           "Total Debt" H)).
Defined.

Lemma find_col_found (columns candidates : list string) (col : string) :
  Vif.find_col columns candidates = Ok col ->
  In col columns /\ exists c, In c candidates /\ Vif._norm col = Vif._norm c.
Proof.
  unfold Vif.find_col.
  destruct (first_some _ candidates) as [found|] eqn:Hf; [|discriminate].
  intros [= <-]. apply first_some_found in Hf. destruct Hf as [c [Hc Ha]].
  apply assoc_In, in_norm_map in Ha. destruct Ha as [Hcol Hn].
  split; [exact Hcol|]. exists c. now split.
Qed.

Lemma find_col_raises (columns candidates : list string) (e : exn) :
  Vif.find_col columns candidates = Raise e -> e = KeyError.
Proof.
  unfold Vif.find_col. destruct (first_some _ candidates); [discriminate|].
  now intros [= <-].
Qed.

Lemma existsb_ascii (i : ascii) (l : list ascii) :
  existsb (Ascii.eqb i) l = true <-> In i l.
Proof.
  rewrite existsb_exists. split.
  - intros [x [Hx Heq]]. apply Ascii.eqb_eq in Heq. now subst.
  - intros Hin. exists i. split; [exact Hin | apply Ascii.eqb_refl].
Qed.

Lemma detect_step_ok (columns : list string) (st : list string * list ascii)
      (cand : string) :
  Vif._norm cand <> EmptyString ->
  pillars_ok columns st ->
  exists st', Vif.detect_step columns st cand = Ok st'
              /\ pillars_ok columns st'.
Proof.
  intros Hcand Hst. unfold Vif.detect_step.
  destruct (Vif.find_col columns [cand]) as [col|e] eqn:Hf.
  - destruct (find_col_found _ _ Hf) as [Hcol [c [[<-|[]] Hn]]].
    destruct col as [|a col'];
      [exfalso; apply Hcand; rewrite <- Hn; reflexivity|].
    simpl.
    destruct (existsb (Ascii.eqb (Vif.upper_ascii a)) (snd st)) eqn:Hseen.
    + now exists st.
    + eexists. split; [reflexivity|].
      destruct Hst as [Hincl [Hnd Hinit]]. split; [|split]; simpl.
      * intros x Hx. apply in_app_or in Hx.
        destruct Hx as [Hx|[<-|[]]]; [now apply Hincl | exact Hcol].
      * constructor; [|exact Hnd].
        intros Hin. apply existsb_ascii in Hin. congruence.
      * apply Forall2_app; [exact Hinit|]. now constructor.
  - rewrite (find_col_raises _ _ Hf). simpl. now exists st.
Qed.

Lemma detect_from_ok (columns : list string) (cands : list string) :
  forall st : list string * list ascii,
    Forall (fun cand => Vif._norm cand <> EmptyString) cands ->
    pillars_ok columns st ->
    exists st', Vif.detect_from columns st cands = Ok st'
                /\ pillars_ok columns st'.
Proof.
  induction cands as [|cand rest IH]; intros st Hall Hst; simpl.
  - now exists st.
  - inversion Hall as [|? ? Hc Hrest]; subst.
    destruct (detect_step_ok cand Hc Hst) as [st1 [-> Hst1]]. simpl.
    now apply IH.
Qed.

(** X5.  Whatever the table's columns are, the pillar detection raises
    nothing.  The pillars it returns are columns of the table with
    pairwise different initials, one per initial seen; and when the
    initials E, S and G have all been seen there are at least three
    pillars. *)
Theorem detect_pillars_distinct_initials :
  forall columns : list string,
    exists pillars seen,
      Vif.detect_pillars columns = Ok (pillars, seen)
      /\ incl pillars columns
      /\ NoDup seen
      /\ Forall2 (fun col i => Vif.initial_of col = Ok i) pillars (rev seen)
      /\ (Vif.has_pillars seen = true -> 3 <= List.length pillars).
Proof.
  intros columns. unfold Vif.detect_pillars.
  destruct (@detect_from_ok columns Vif.pillar_candidates ([], []))
    as [[pillars seen] [Hrun [Hincl [Hnd Hinit]]]].
  - repeat constructor; discriminate.
  - repeat split; simpl; try constructor. intros x [].
  - exists pillars, seen. simpl in *.
    repeat split; try assumption.
    intros Hhas. unfold Vif.has_pillars in Hhas.
    rewrite forallb_forall in Hhas.
    rewrite (Forall2_length Hinit), length_rev.
    apply (@NoDup_incl_length ascii ["E"; "S"; "G"]%char seen).
    + repeat constructor; simpl; intuition discriminate.
    + intros i Hi. apply existsb_ascii, Hhas, Hi.
Qed.

(* ================================================================== *)
(** ** Rows left after a lag, and the emptiness test *)

Lemma count_entity_length (e : string) (f : frame) :
  count_entity e f = List.length (entity_rows e f).
Proof. reflexivity. Qed.

Lemma entity_rows_filter (p : row -> bool) (e : string) (f : frame) :
  entity_rows e (filter p f) = filter p (entity_rows e f).
Proof.
  unfold entity_rows. induction f as [|r f IH]; simpl; [reflexivity|].
  destruct (p r) eqn:Hp, (String.eqb (entity r) e) eqn:He; simpl;
    rewrite ?Hp, ?He, IH; reflexivity.
Qed.

Lemma filter_length_le' {A : Type} (p q : A -> bool) (l : list A) :
  (forall x, In x l -> p x = true -> q x = true) ->
  List.length (filter p l) <= List.length (filter q l).
Proof.
  induction l as [|x l IH]; intros Hpq; simpl; [lia|].
  assert (IH' : List.length (filter p l) <= List.length (filter q l))
    by (apply IH; intros y Hy; apply Hpq; now right).
  destruct (p x) eqn:Hp.
  - rewrite (Hpq x (or_introl eq_refl) Hp). simpl. lia.
  - destruct (q x); simpl; lia.
Qed.

Lemma filter_map_length {A B : Type} (g : A -> B) (p : B -> bool) (l : list A) :
  List.length (filter (fun x => p (g x)) l)
  = List.length (filter p (map g l)).
Proof.
  induction l as [|x l IH]; simpl; [reflexivity|].
  destruct (p (g x)); simpl; now rewrite IH.
Qed.

Lemma filter_notna_repeat (L : nat) :
  forall n, filter notna (firstn n (repeat NaN L)) = [].
Proof.
  induction L as [|L IH]; intros [|n]; simpl; try reflexivity. apply IH.
Qed.

(** Of a group's lagged column at most the group's size less the lag is
    present. *)
Lemma shifted_present (src : list fval) (L : nat) :
  List.length (filter notna (firstn (List.length src) (repeat NaN L ++ src)))
  + Nat.min L (List.length src) <= List.length src.
Proof.
  rewrite firstn_app, filter_app, length_app, repeat_length.
  rewrite filter_notna_repeat. simpl.
  pose proof (filter_length_le notna (firstn (List.length src - L) src)) as H1.
  rewrite length_firstn in H1. lia.
Qed.

(** Lagging column [c] into column [c'] and keeping the rows complete
    in columns that include [c'] leaves each entity at most its rows less
    the lag. *)
Lemma lag_then_dropna_count (f : frame) (c c' : string) (cols : list string)
      (L : nat) (e : string) :
  In c' cols ->
  count_entity e (dropna cols (assign_column c' (shift_column c L f) f))
  + Nat.min L (count_entity e f) <= count_entity e f.
Proof.
  intros Hc. rewrite !count_entity_length.
  unfold dropna. rewrite entity_rows_filter.
  set (g := entity_rows e (assign_column c' (shift_column c L f) f)).
  assert (Hle : List.length (filter (complete cols) g)
                <= List.length (filter (fun r => notna (cell r c')) g)).
  { apply filter_length_le'. intros r _ Hr. unfold complete in Hr.
    rewrite forallb_forall in Hr. now apply Hr. }
  rewrite (filter_map_length (fun r => cell r c') notna) in Hle.
  subst g. rewrite lagged_group in Hle.
  pose proof (shifted_present (map (fun r => cell r c) (entity_rows e f)) L)
    as Hs.
  rewrite length_map in Hs. lia.
Qed.

Lemma assign_column_count (f : frame) (c : string) (e : string) :
  forall vals : list fval,
    count_entity e (assign_column c vals f) = count_entity e f.
Proof.
  unfold count_entity.
  induction f as [|r f IH]; intros [|v vals]; simpl; try reflexivity.
  destruct (String.eqb (entity r) e); simpl; now rewrite IH.
Qed.

Lemma fold_min_ge (base : nat) (l : list nat) (n : nat) :
  n <= base -> Forall (fun x => n <= x) l -> n <= fold_right Nat.min base l.
Proof.
  intros Hb Hl. induction Hl as [|x l Hx _ IH]; simpl; [exact Hb | lia].
Qed.

Lemma count_entity_le_length (e : string) (f : frame) :
  count_entity e f <= List.length f.
Proof. unfold count_entity. apply filter_length_le. Qed.

Lemma min_count_ge (f : frame) :
  no_singletons f -> f <> [] -> 2 <= ModelA.min_count f.
Proof.
  intros Hns Hne. unfold ModelA.min_count. apply fold_min_ge.
  - destruct f as [|r f]; [contradiction|].
    etransitivity; [apply (Hns r); now left | apply count_entity_le_length].
  - apply Forall_forall. intros n Hn. apply in_map_iff in Hn.
    destruct Hn as [r [<- Hr]]. now apply Hns.
Qed.

Lemma fit_condition_is_emptiness (data : frame) :
  no_singletons data ->
  (List.length data =? 0) || (ModelA.min_count data <? 2)
  = (List.length data =? 0).
Proof.
  intros Hns. destruct data as [|r data]; [reflexivity|].
  simpl List.length. cbn [Nat.eqb orb].
  apply Nat.ltb_ge, min_count_ge; [exact Hns | discriminate].
Qed.

(** X7.  In [fit_one] of models A and B the test on the smallest group
    size never decides: a combination is recorded as not estimable
    exactly when no row is left after the NaN drop and the singleton
    drop, and otherwise the estimator receives all the rows left. *)
Theorem no_estimable_panel_iff_empty :
  forall (block : frame) (outcome : string) (lag : nat),
    (ModelA.fit_input block outcome lag = None
     <-> ModelA.prepare block outcome lag = [])
    /\ (ModelB.fit_input block outcome lag = None
        <-> ModelB.prepare block outcome lag = [])
    /\ (ModelA.prepare block outcome lag <> [] ->
        ModelA.fit_input block outcome lag
        = Some (mkDesign outcome ModelA.exog
                         (ModelA.prepare block outcome lag)))
    /\ (ModelB.prepare block outcome lag <> [] ->
        ModelB.fit_input block outcome lag
        = Some (mkDesign outcome ModelB.exog
                         (ModelB.prepare block outcome lag))).
Proof.
  intros block outcome lag.
  assert (HA : no_singletons (ModelA.prepare block outcome lag))
    by apply drop_singletons_no_singletons.
  assert (HB : no_singletons (ModelB.prepare block outcome lag))
    by apply drop_singletons_no_singletons.
  unfold ModelA.fit_input, ModelB.fit_input.
  rewrite (fit_condition_is_emptiness HA), (fit_condition_is_emptiness HB).
  destruct (ModelA.prepare block outcome lag) as [|ra da];
    destruct (ModelB.prepare block outcome lag) as [|rb db]; simpl;
    repeat split; intros; try reflexivity; try discriminate; contradiction.
Qed.

(** The two years of one firm are both left at lag zero. *)
Lemma no_estimable_panel_iff_empty_witness :
  ModelA.prepare two_years "ROA" 0 <> []
  /\ ModelA.fit_input two_years "ROA" 0
     = Some (mkDesign "ROA" ModelA.exog (ModelA.prepare two_years "ROA" 0)).
Proof.
  assert (H : ModelA.prepare two_years "ROA" 0 <> []) by discriminate.
  split; [exact H|].
  exact (proj1 (proj2 (proj2 (no_estimable_panel_iff_empty two_years "ROA" 0)))
               H).
Defined.

(* ================================================================== *)
(** ** Short windows *)

Lemma index_of_filter_NoDup (p : row -> bool) (f : frame) :
  NoDup (index_of f) -> NoDup (index_of (filter p f)).
Proof.
  unfold index_of. induction f as [|r f IH]; simpl; intros Hnd; [constructor|].
  inversion Hnd as [|? ? Hnotin Hrest]; subst.
  destruct (p r); simpl; [|now apply IH].
  constructor; [|now apply IH].
  intros Hin. apply Hnotin. apply in_map_iff in Hin.
  destruct Hin as [r' [Heq Hr']]. apply filter_In in Hr'.
  apply in_map_iff. exists r'. tauto.
Qed.

Lemma group_years_NoDup (e : string) (f : frame) :
  NoDup (index_of f) -> NoDup (map year (entity_rows e f)).
Proof.
  intros Hnd. apply (index_of_filter_NoDup (fun r => String.eqb (entity r) e))
    in Hnd.
  fold (entity_rows e f) in Hnd.
  assert (Hent : forall r, In r (entity_rows e f) -> entity r = e).
  { intros r Hr. apply filter_In in Hr. now apply String.eqb_eq. }
  revert Hnd Hent. generalize (entity_rows e f) as g.
  unfold index_of. induction g as [|r g IH]; simpl; intros Hnd Hent;
    [constructor|].
  inversion Hnd as [|? ? Hnotin Hrest]; subst.
  constructor; [|apply IH; [exact Hrest | intros; apply Hent; now right]].
  intros Hin. apply Hnotin. apply in_map_iff in Hin.
  destruct Hin as [r' [Hy Hr']]. apply in_map_iff. exists r'.
  split; [|exact Hr'].
  rewrite Hy, (Hent r' (or_intror Hr')), (Hent r (or_introl eq_refl)).
  reflexivity.
Qed.

Lemma in_covid_years (r : row) :
  ModelA.in_covid r = true -> In (year r) [2020%Z; 2021%Z].
Proof.
  unfold ModelA.in_covid. rewrite andb_true_iff, !Z.leb_le. simpl.
  intros [H1 H2].
  assert (year r = 2020 \/ year r = 2021)%Z as [->| ->] by lia; auto.
Qed.

(** With a unique (entity, year) index no firm has more than two rows
    inside the COVID window. *)
Lemma covid_groups_small (df : frame) (e : string) :
  NoDup (index_of df) -> count_entity e (ModelA.covid df) <= 2.
Proof.
  intros Hnd. rewrite count_entity_length.
  rewrite <- (length_map year).
  apply (@NoDup_incl_length Z _ [2020%Z; 2021%Z]).
  - apply group_years_NoDup. now apply index_of_filter_NoDup.
  - intros y Hy. apply in_map_iff in Hy. destruct Hy as [r [<- Hr]].
    apply filter_In in Hr. destruct Hr as [Hr _].
    apply filter_In in Hr. now apply in_covid_years.
Qed.

Lemma drop_singletons_small (f : frame) :
  (forall e, count_entity e f <= 1) -> ModelA.drop_singletons f = [].
Proof.
  intros Hsmall. unfold ModelA.drop_singletons.
  assert (Hall : forall l : frame,
            filter (fun r => 2 <=? count_entity (entity r) f) l = []).
  { induction l as [|r l IH]; [reflexivity|]. cbn [filter].
    destruct (Nat.leb_spec 2 (count_entity (entity r) f)) as [Hge|_];
      [specialize (Hsmall (entity r)); lia | exact IH]. }
  apply Hall.
Qed.

Lemma short_groups_model_a (block : frame) (outcome : string) (L : nat) :
  1 <= L -> (forall e, count_entity e block <= L + 1) ->
  ModelA.prepare block outcome L = [].
Proof.
  intros HL Hshort. unfold ModelA.prepare.
  destruct L as [|k]; [lia|].
  apply drop_singletons_small. intros e.
  pose proof (@lag_then_dropna_count block ModelA.ESG ModelA.ESG
                (outcome :: ModelA.exog) (S k) e) as H.
  specialize (Hshort e). specialize (H ltac:(simpl; tauto)). lia.
Qed.

Lemma short_groups_model_b (block : frame) (outcome : string) (L : nat) :
  1 <= L -> (forall e, count_entity e block <= L + 1) ->
  ModelB.prepare block outcome L = [].
Proof.
  intros HL Hshort. unfold ModelB.prepare.
  destruct L as [|k]; [lia|].
  apply drop_singletons_small. intros e.
  unfold ModelB.lag_pillars. cbn [fold_left].
  set (X1 := assign_column ModelB.E _ block).
  set (X2 := assign_column ModelB.S _ X1).
  assert (Hc : count_entity e X2 = count_entity e block)
    by (unfold X2, X1; now rewrite !assign_column_count).
  pose proof (@lag_then_dropna_count X2 ModelB.G ModelB.G
                (outcome :: ModelB.exog) (S k) e) as H.
  specialize (Hshort e). specialize (H ltac:(simpl; tauto)). lia.
Qed.

(** X8.  A panel in which no firm has more than [L + 1] rows is never
    estimable at a lag [L >= 1] in models A and B.  In particular, with
    a unique (entity, year) index, every COVID-window combination with a
    lag of one or more is recorded as "no_estimable_panel", whatever the
    data and the estimator are. *)
Theorem short_window_lags_not_estimable :
  forall (Est : Estimator) (df : frame) (outcome : string) (L : nat)
         (label : string),
    1 <= L ->
    ((forall e, count_entity e df <= L + 1) ->
     ModelA.fit_input df outcome L = None
     /\ ModelB.fit_input df outcome L = None)
    /\ (NoDup (index_of df) ->
        ModelA.fit_one (ModelA.covid df) outcome L label
        = Ok (ModelA.mkOut label outcome L 0 NaN NaN NaN "no_estimable_panel")
        /\ ModelB.fit_one (ModelB.covid df) outcome L label
           = Ok (ModelB.mkOut label outcome L 0 NaN NaN NaN NaN NaN NaN NaN
                              "no_estimable_panel")).
Proof.
  intros Est df outcome L label HL.
  assert (Hshort : forall block, (forall e, count_entity e block <= L + 1) ->
            ModelA.fit_input block outcome L = None
            /\ ModelB.fit_input block outcome L = None).
  { intros block Hb. unfold ModelA.fit_input, ModelB.fit_input.
    now rewrite (@short_groups_model_a block outcome L HL Hb),
                (@short_groups_model_b block outcome L HL Hb). }
  split; [apply Hshort|].
  intros Hnd.
  destruct (Hshort (ModelA.covid df)) as [HA HB].
  { intros e. pose proof (@covid_groups_small df e Hnd). lia. }
  unfold ModelA.fit_one, ModelB.fit_one.
  change (ModelB.covid df) with (ModelA.covid df).
  now rewrite HA, HB.
Qed.

(** One firm with both COVID years, at lag one. *)
Lemma short_window_lags_not_estimable_witness :
  NoDup (index_of covid_years)
  /\ @ModelA.fit_one absorbing (ModelA.covid covid_years) "ROA" 1 "COVID"
     = Ok (ModelA.mkOut "COVID" "ROA" 1 0 NaN NaN NaN "no_estimable_panel").
Proof.
  assert (H : NoDup (index_of covid_years)).
  { unfold covid_years, index_of. simpl.
    constructor; [intros [H|[]]; discriminate H|].
    constructor; [intros []|constructor]. }
  split; [exact H|].
  exact (proj1 (proj2 (short_window_lags_not_estimable
                         absorbing covid_years "ROA" "COVID" (le_n 1)) H)).
Defined.

Lemma entity_rows_years_filter (p : row -> bool) (e : string) (f : frame) :
  StronglySorted Z.lt (map year (entity_rows e f)) ->
  StronglySorted Z.lt (map year (entity_rows e (filter p f))).
Proof.
  rewrite entity_rows_filter. generalize (entity_rows e f) as g.
  induction g as [|r g IH]; simpl; intros Hs; [constructor|].
  inversion Hs as [|? ? Hrest Hall]; subst.
  destruct (p r); simpl; [|now apply IH].
  constructor; [now apply IH|].
  apply Forall_forall. intros y Hy. apply in_map_iff in Hy.
  destruct Hy as [r' [<- Hr']]. apply filter_In in Hr'.
  rewrite Forall_forall in Hall. apply Hall, in_map. tauto.
Qed.

Lemma assign_column_years (c : string) (e : string) (f : frame) :
  forall vals : list fval,
    map year (entity_rows e (assign_column c vals f))
    = map year (entity_rows e f).
Proof.
  unfold entity_rows.
  induction f as [|r f IH]; intros [|v vals]; simpl; try reflexivity.
  destruct (String.eqb (entity r) e); simpl; now rewrite IH.
Qed.

(** Strictly increasing years inside the window are 2020, 2021 or
    both. *)
Lemma window_years (ys : list Z) (i : nat) :
  StronglySorted Z.lt ys ->
  (forall y, In y ys -> In y [2020%Z; 2021%Z]) ->
  1 <= i < List.length ys -> nth i ys 0%Z = 2021%Z.
Proof.
  intros Hs Hin Hi.
  destruct ys as [|y0 [|y1 ys]]; simpl in Hi; try lia.
  inversion Hs as [|? ? Hrest Hall]; subst.
  inversion Hall as [|? ? H01 Hall']; subst.
  inversion Hrest as [|? ? Hrest' Hall1]; subst.
  assert (H0 : In y0 [2020%Z; 2021%Z]) by (apply Hin; simpl; tauto).
  assert (H1 : In y1 [2020%Z; 2021%Z]) by (apply Hin; simpl; tauto).
  destruct ys as [|y2 ys].
  - simpl in Hi. assert (i = 1) as -> by lia. simpl in H0, H1 |- *. lia.
  - exfalso. inversion Hall1 as [|? ? H12 _]; subst.
    assert (H2 : In y2 [2020%Z; 2021%Z]) by (apply Hin; simpl; tauto).
    simpl in H0, H1, H2. lia.
Qed.

(** Inside the COVID window a row whose lagged score is present is a
    row of 2021. *)
Lemma covid_lagged_rows_2021 (df : frame) (c c' : string) (L : nat) (r : row) :
  1 <= L -> time_sorted df ->
  In r (assign_column c' (shift_column c L (Controls.covid df))
                      (Controls.covid df)) ->
  notna (cell r c') = true -> year r = 2021%Z.
Proof.
  intros HL Hsorted Hr Hpresent.
  set (cf := Controls.covid df) in *.
  set (X := assign_column c' (shift_column c L cf) cf) in *.
  set (e := entity r).
  assert (Hg : In r (entity_rows e X)).
  { apply filter_In. split; [exact Hr | apply String.eqb_refl]. }
  destruct (In_nth _ _ r Hg) as [i [Hi Hnth]].
  assert (Hy : map year (entity_rows e X) = map year (entity_rows e cf))
    by apply assign_column_years.
  assert (Hlen : List.length (entity_rows e X) = List.length (entity_rows e cf)).
  { rewrite <- (length_map year), Hy. apply length_map. }
  assert (Hcell : cell r c'
                  = if i <? L then NaN
                    else nth (i - L)
                             (map (fun r => cell r c) (entity_rows e cf)) NaN).
  { rewrite <- Hnth at 1.
    change (cell (nth i (entity_rows e X) r) c')
      with ((fun r => cell r c') (nth i (entity_rows e X) r)).
    rewrite <- map_nth.
    rewrite (nth_indep _ _ NaN) by (rewrite length_map; exact Hi).
    unfold X. rewrite lagged_group.
    rewrite <- (length_map (fun r => cell r c) (entity_rows e cf)).
    apply nth_shifted. rewrite length_map. lia. }
  destruct (Nat.ltb_spec i L) as [Hlt|Hge];
    [rewrite Hcell in Hpresent; discriminate|].
  rewrite <- Hnth.
  rewrite <- (map_nth year), Hy.
  rewrite (nth_indep _ _ 0%Z) by (rewrite length_map; lia).
  apply window_years.
  - apply entity_rows_years_filter, Hsorted.
  - intros y Hin. apply in_map_iff in Hin. destruct Hin as [r' [<- Hr']].
    apply filter_In in Hr'. destruct Hr' as [Hr' _].
    apply filter_In in Hr'. now apply in_covid_years.
  - rewrite length_map. lia.
Qed.

Lemma n_times_single (f : frame) (y : Z) :
  (forall r, In r f -> year r = y) -> n_times f <= 1.
Proof.
  intros Hall. unfold n_times.
  apply (@NoDup_incl_length Z _ [y]).
  - apply NoDup_nodup.
  - intros z Hz. apply nodup_In, in_map_iff in Hz.
    destruct Hz as [r [<- Hr]]. left. symmetry. now apply Hall.
Qed.

(** X9.  In the controls summary, on a panel whose years strictly
    increase within every firm, the COVID block is never fitted at a lag
    of one or more: the rows left after the NaN drop are all of 2021, the
    panel is invalid, and both outcomes of lags 1 and 2 are recorded as
    "skipped: insufficient panel". *)
Theorem covid_block_lags_skipped :
  forall (Est : Estimator) (df : frame) (label : string) (L : nat),
    1 <= L -> time_sorted df ->
    let df_lag := Controls.lag_frame (Controls.covid df) L in
    (forall r, In r df_lag -> year r = 2021%Z)
    /\ Controls.valid_panel df_lag = false
    /\ Controls.rows_of_lag (Controls.covid df) label L
       = [Controls.skip_row df_lag label "ROA" L;
          Controls.skip_row df_lag label "NIAT" L].
Proof.
  intros Est df label L HL Hsorted df_lag.
  assert (Hyears : forall r, In r df_lag -> year r = 2021%Z).
  { intros r Hr. unfold df_lag, Controls.lag_frame, dropna in Hr.
    apply filter_In in Hr. destruct Hr as [Hr Hc].
    apply (@covid_lagged_rows_2021 df Controls.ESG (Controls.lag_name L) L r);
      try assumption.
    unfold complete in Hc. rewrite forallb_forall in Hc. apply Hc.
    apply in_or_app. right. now left. }
  assert (Hinvalid : Controls.valid_panel df_lag = false).
  { unfold Controls.valid_panel.
    pose proof (n_times_single df_lag Hyears) as Hn.
    destruct (Nat.leb_spec 2 (n_times df_lag)) as [|_]; [lia|].
    now rewrite andb_false_r. }
  split; [exact Hyears|]. split; [exact Hinvalid|].
  unfold Controls.rows_of_lag. fold df_lag. now rewrite Hinvalid.
Qed.

(** One firm with both COVID years, at lag one. *)
Lemma covid_block_lags_skipped_witness :
  time_sorted covid_years
  /\ Controls.valid_panel (Controls.lag_frame (Controls.covid covid_years) 1)
     = false.
Proof.
  assert (H : time_sorted covid_years).
  { intros e. unfold covid_years, entity_rows. cbn [filter obs entity].
    destruct (String.eqb "A" e); cbn [map year obs];
      repeat (constructor; try reflexivity). }
  split; [exact H|].
  exact (proj1 (proj2 (covid_block_lags_skipped absorbing "COVID" (le_n 1) H))).
Defined.

(* ================================================================== *)
(** ** Missing regressors in the Hausman comparison *)

Lemma for_each_raises_only {A B : Type} (body : A -> result B) (l : list A)
      (x : exn) :
  (forall a e, body a = Raise e -> e = x) ->
  forall e, for_each body l = Raise e -> e = x.
Proof.
  intros Hbody. induction l as [|a l IH]; simpl; intros e; [discriminate|].
  destruct (body a) as [b|e0] eqn:Hb; simpl.
  - destruct (for_each body l) as [bs|e1]; simpl; [discriminate|].
    intros [= <-]. now apply IH.
  - intros [= <-]. now apply (Hbody a).
Qed.

Lemma getitem_raises {A : Type} (s : list (string * A)) (k : string) (e : exn) :
  getitem s k = Raise e -> e = KeyError.
Proof.
  unfold getitem. destruct (assoc k s); [discriminate | now intros [= <-]].
Qed.

Lemma take_labels_raises (s : list (string * Q)) (keep_idx : list string)
      (e : exn) :
  Hausman.take_labels s keep_idx = Raise e -> e = KeyError.
Proof.
  apply for_each_raises_only. intros a e'. apply getitem_raises.
Qed.

Lemma take_block_raises (c : list (string * list (string * Q)))
      (keep_idx : list string) (e : exn) :
  Hausman.take_block c keep_idx = Raise e -> e = KeyError.
Proof.
  apply for_each_raises_only. intros i e'.
  destruct (getitem c i) as [r|e0] eqn:Hg; simpl.
  - apply take_labels_raises.
  - intros [= <-]. now apply getitem_raises in Hg.
Qed.

Lemma for_each_ok_inv {A B : Type} (body : A -> result B) (l : list A)
      (bs : list B) :
  for_each body l = Ok bs -> Forall (fun a => exists b, body a = Ok b) l.
Proof.
  revert bs. induction l as [|a l IH]; intros bs; simpl; [constructor|].
  destruct (body a) as [b|e] eqn:Hb; simpl; [|discriminate].
  destruct (for_each body l) as [bs'|e] eqn:Hl; simpl; [|discriminate].
  intros _. constructor; [now exists b | now apply (IH bs')].
Qed.

Lemma take_labels_ok_inv (s : list (string * Q)) (keep_idx : list string)
      (v : Hausman.vec) :
  Hausman.take_labels s keep_idx = Ok v -> Hausman.has_labels s keep_idx.
Proof.
  intros H. apply for_each_ok_inv in H. unfold Hausman.has_labels.
  eapply Forall_impl; [|exact H].
  intros k [q Hq]. unfold getitem in Hq.
  destruct (assoc k s); [discriminate | discriminate Hq].
Qed.

Lemma take_block_ok_inv (c : list (string * list (string * Q)))
      (keep_idx : list string) (M : Hausman.matrix) :
  Hausman.take_block c keep_idx = Ok M ->
  Forall (fun i => exists r, assoc i c = Some r
                             /\ Hausman.has_labels r keep_idx) keep_idx.
Proof.
  intros H. apply for_each_ok_inv in H.
  eapply Forall_impl; [|exact H].
  intros i [v Hv]. unfold getitem in Hv.
  destruct (assoc i c) as [r|]; [|discriminate Hv].
  exists r. split; [reflexivity|]. simpl in Hv.
  now apply take_labels_ok_inv in Hv.
Qed.

Lemma hausman_stat_ok_inv (N : Hausman.Numerics) (fe_res re_res : fit_result)
      (keep_idx : list string) (s : Q * nat * Q) :
  Hausman.hausman_stat fe_res re_res keep_idx = Ok s ->
  Hausman.shares fe_res keep_idx /\ Hausman.shares re_res keep_idx.
Proof.
  unfold Hausman.hausman_stat, Hausman.shares.
  destruct (Hausman.take_labels (params fe_res) keep_idx) eqn:H1;
    simpl; [|discriminate].
  destruct (Hausman.take_labels (params re_res) keep_idx) eqn:H2;
    simpl; [|discriminate].
  destruct (Hausman.take_block (cov fe_res) keep_idx) eqn:H3;
    simpl; [|discriminate].
  destruct (Hausman.take_block (cov re_res) keep_idx) eqn:H4;
    simpl; [|discriminate].
  intros _.
  apply take_labels_ok_inv in H1, H2. apply take_block_ok_inv in H3, H4.
  tauto.
Qed.

Lemma hausman_stat_raises (N : Hausman.Numerics) (fe_res re_res : fit_result)
      (keep_idx : list string) (e : exn) :
  Hausman.hausman_stat fe_res re_res keep_idx = Raise e -> e = KeyError.
Proof.
  unfold Hausman.hausman_stat.
  destruct (Hausman.take_labels (params fe_res) keep_idx) eqn:H1; simpl;
    [|intros [= <-]; now apply take_labels_raises in H1].
  destruct (Hausman.take_labels (params re_res) keep_idx) eqn:H2; simpl;
    [|intros [= <-]; now apply take_labels_raises in H2].
  destruct (Hausman.take_block (cov fe_res) keep_idx) eqn:H3; simpl;
    [|intros [= <-]; now apply take_block_raises in H3].
  destruct (Hausman.take_block (cov re_res) keep_idx) eqn:H4; simpl;
    [|intros [= <-]; now apply take_block_raises in H4].
  discriminate.
Qed.

Lemma hausman_stat_missing (N : Hausman.Numerics) (fe_res re_res : fit_result)
      (keep_idx : list string) :
  ~ (Hausman.shares fe_res keep_idx /\ Hausman.shares re_res keep_idx) ->
  Hausman.hausman_stat fe_res re_res keep_idx = Raise KeyError.
Proof.
  intros Hno.
  destruct (Hausman.hausman_stat fe_res re_res keep_idx) as [s|e] eqn:Hs.
  - exfalso. apply Hno. eapply hausman_stat_ok_inv. exact Hs.
  - f_equal. eapply hausman_stat_raises. exact Hs.
Qed.

(** X10.  [hausman_stat] returns a result exactly when both fits hold
    every regressor of [keep_idx] in their coefficients and in the rows
    and columns of their covariances, and the only exception it raises
    is [KeyError].  When a fit lacks a regressor of the design, as the
    fixed-effects fit does after dropping an absorbed column, the
    comparison raises [KeyError] and the row of that combination is not
    produced. *)
Theorem hausman_needs_every_regressor :
  forall (Est : Estimator) (N : Hausman.Numerics) (fe_res re_res : fit_result)
         (keep_idx : list string),
    (forall e, Hausman.hausman_stat fe_res re_res keep_idx = Raise e ->
               e = KeyError)
    /\ ((exists s, Hausman.hausman_stat fe_res re_res keep_idx = Ok s)
        <-> Hausman.shares fe_res keep_idx /\ Hausman.shares re_res keep_idx)
    /\ (~ (Hausman.shares fe_res keep_idx /\ Hausman.shares re_res keep_idx) ->
        Hausman.hausman_stat fe_res re_res keep_idx = Raise KeyError
        /\ forall panel L sample_label oy lag d,
             Hausman.fit_input panel L (snd oy) lag = Some d ->
             d_exog d = keep_idx ->
             PanelOLS_fit true Unadjusted d = Ok fe_res ->
             RandomEffects_fit Unadjusted d = Ok re_res ->
             Hausman.block_row panel L sample_label oy lag = Raise KeyError).
Proof.
  intros Est N fe_res re_res keep_idx.
  split; [intros e; apply hausman_stat_raises|].
  split.
  { split.
    - intros [s Hs]. eapply hausman_stat_ok_inv. exact Hs.
    - intros [Hfe Hre]. eexists. now apply hausman_stat_value. }
  intros Hno.
  pose proof (hausman_stat_missing N Hno) as Hraise.
  split; [exact Hraise|].
  intros panel L sample_label oy lag d Hd Hexog Hfe Hre.
  unfold Hausman.block_row. rewrite Hd. simpl. rewrite Hfe. simpl.
  rewrite Hre. simpl. unfold Hausman.compare. rewrite Hexog, Hraise.
  reflexivity.
Qed.

(** The fixed-effects fit has dropped the regressor "x". *)
Lemma hausman_needs_every_regressor_witness :
  ~ (Hausman.shares absorbed_fit ["x"] /\ Hausman.shares re_demo ["x"])
  /\ @Hausman.hausman_stat Hausman.scalar_numerics absorbed_fit re_demo ["x"]
     = Raise KeyError.
Proof.
  assert (H : ~ (Hausman.shares absorbed_fit ["x"]
                 /\ Hausman.shares re_demo ["x"])).
  { intros [[Hp _] _]. inversion Hp as [|? ? Hx _]. now apply Hx. }
  split; [exact H|].
  exact (proj1 (proj2 (proj2
           (hausman_needs_every_regressor absorbing Hausman.scalar_numerics
              absorbed_fit re_demo ["x"])) H)).
Defined.

(* ================================================================== *)
(** ** Serial-correlation test: the effective sample *)











(* ================================================================== *)
(** ** The rows of the Hausman table *)

Lemma for_each_rows {A B : Type} (body : A -> result B) (l : list A) :
  forall bs, for_each body l = Ok bs ->
             Forall2 (fun a b => body a = Ok b) l bs.
Proof.
  induction l as [|a l IH]; intros bs; simpl.
  - intros [= <-]. constructor.
  - destruct (body a) as [b|e] eqn:Hb; simpl; [|discriminate].
    destruct (for_each body l) as [bs'|e] eqn:Hl; simpl; [|discriminate].
    intros [= <-]. constructor; [exact Hb | now apply IH].
Qed.

Lemma Forall2_map_eq {A B C : Type} (f : A -> C) (g : B -> C)
      (l : list A) (bs : list B) :
  Forall2 (fun a b => g b = f a) l bs -> map g bs = map f l.
Proof.
  induction 1 as [|a b l bs Hab _ IH]; simpl; [reflexivity|].
  now rewrite Hab, IH.
Qed.

Lemma fit_input_design (panel : frame) (L : Hausman.labels) (ycol : string)
      (lag : nat) (d : design) :
  Hausman.fit_input panel L ycol lag = Some d ->
  1 <= List.length (d_exog d) <= 3.
Proof.
  unfold Hausman.fit_input.
  set (bd := Hausman.build_design panel ycol (Hausman.esg L) (Hausman.emp L)
                                  (Hausman.debt L) lag).
  destruct (Nat.eqb_spec (List.length (d_rows bd)) 0); [discriminate|].
  destruct (Nat.eqb_spec (List.length (d_exog bd)) 0) as [|Hne];
    [discriminate|].
  simpl. intros [= <-]. split; [lia|].
  unfold bd, Hausman.build_design. cbn [d_exog].
  etransitivity; [apply filter_length_le | reflexivity].
Qed.

Lemma decide_values (pval : Q) :
  Hausman.decide pval = "FE" \/ Hausman.decide pval = "RE".
Proof.
  unfold Hausman.decide. destruct (Hausman.Qlt_bool pval (5 # 100)); auto.
Qed.

Lemma block_row_well_formed (Est : Estimator) (N : Hausman.Numerics)
      (panel : frame) (L : Hausman.labels) (sample_label : string)
      (oy : string * string) (lag : nat) (r : Hausman.out_row) :
  Hausman.block_row panel L sample_label oy lag = Ok r ->
  (Hausman.outcome r, Hausman.lag r) = (fst oy, lag)
  /\ Hausman.sample r = sample_label
  /\ (not_compared r \/ compared r).
Proof.
  unfold Hausman.block_row.
  destruct (Hausman.fit_input panel L (snd oy) lag) as [d|] eqn:Hd.
  - destruct (PanelOLS_fit true Unadjusted d) as [fe_res|e]; simpl;
      [|discriminate].
    destruct (RandomEffects_fit Unadjusted d) as [re_res|e]; simpl;
      [|discriminate].
    unfold Hausman.compare.
    destruct (Hausman.hausman_stat fe_res re_res (d_exog d)) as [s|e] eqn:Hs;
      simpl; [|discriminate].
    destruct (hausman_stat_ok_inv _ _ _ _ Hs) as [Hfe Hre].
    rewrite (hausman_stat_value N Hfe Hre) in Hs. injection Hs as <-.
    intros [= <-]. cbn.
    split; [reflexivity|]. split; [reflexivity|]. right.
    unfold compared. cbn.
    split; [apply decide_values|].
    now apply (fit_input_design _ _ _ _ Hd).
  - intros [= <-]. cbn.
    split; [reflexivity|]. split; [reflexivity|]. left.
    unfold not_compared. cbn. tauto.
Qed.

(** X19.  When [run_block] of the Hausman script returns, it returns
    eight rows: the outcomes ROA and NIAT, each at lags 0 to 3, in that
    order and under the sample's label.  Each row either is an "NA" row,
    with NaN statistic and p-value and zero degrees of freedom, or holds
    a decision "FE" or "RE" with between one and three degrees of
    freedom. *)
Theorem hausman_rows_well_formed :
  forall (Est : Estimator) (N : Hausman.Numerics) (panel : frame)
         (L : Hausman.labels) (sample_label : string)
         (rows : list Hausman.out_row),
    Hausman.run_block panel L sample_label = Ok rows ->
    map (fun r => (Hausman.outcome r, Hausman.lag r)) rows
    = [("ROA", 0); ("ROA", 1); ("ROA", 2); ("ROA", 3);
       ("NIAT", 0); ("NIAT", 1); ("NIAT", 2); ("NIAT", 3)]
    /\ Forall (fun r => Hausman.sample r = sample_label
                        /\ (not_compared r \/ compared r)) rows.
Proof.
  intros Est N panel L sample_label rows Hrun.
  unfold Hausman.run_block in Hrun. apply for_each_rows in Hrun.
  split.
  - match type of Hrun with
    | Forall2 _ ?l _ =>
        transitivity
          (map (fun c : string * string * nat => (fst (fst c), snd c)) l);
          [|reflexivity]
    end.
    apply Forall2_map_eq. eapply Forall2_impl; [|exact Hrun].
    intros c r Hr. now apply block_row_well_formed in Hr.
  - assert (Hall : forall (l : list (string * string * nat)) bs,
              Forall2 (fun c b => Hausman.block_row panel L sample_label
                                    (fst c) (snd c) = Ok b) l bs ->
              Forall (fun r => Hausman.sample r = sample_label
                               /\ (not_compared r \/ compared r)) bs).
    { induction 1 as [|c b l bs Hcb _ IH]; constructor; [|exact IH].
      now apply block_row_well_formed in Hcb. }
    eapply Hall. exact Hrun.
Qed.

(** An empty sample gives eight "NA" rows. *)
Lemma hausman_rows_well_formed_witness :
  (exists rows,
      @Hausman.run_block absorbing Hausman.scalar_numerics [] plain_labels
                         "hotels" = Ok rows
      /\ List.length rows = 8)
  /\ map (fun r => Hausman.decision r)
         (match @Hausman.run_block absorbing Hausman.scalar_numerics []
                                   plain_labels "hotels" with
          | Ok rows => rows
          | Raise _ => []
          end)
     = ["NA"; "NA"; "NA"; "NA"; "NA"; "NA"; "NA"; "NA"].
Proof.
  split; [|reflexivity].
  eexists. split; [reflexivity|].
  rewrite <- (length_map (fun r => (Hausman.outcome r, Hausman.lag r))).
  rewrite (proj1 (@hausman_rows_well_formed absorbing Hausman.scalar_numerics
                    [] plain_labels "hotels" _ eq_refl)).
  reflexivity.
Defined.
